(** * EMA crossover bot: the strategy loop and the position lifecycle

    A shallow embedding of [src/service.js]: the signal detector
    ([detectCross]), the trade operations ([openTrade], [closeTrade]), the
    strategy tick ([tick]) and the start-up reconciliation
    ([restoreOpenPosition]).

    JavaScript numbers are IEEE 754 binary64 values and are modelled by Rocq's
    primitive floats.  An [async] function is cut at its [await]s: every
    synchronous segment is one function on the process state, and a scheduler
    ([step]) interleaves new [tick()] invocations with the resumption of the
    suspended ones, which is how the Node.js event loop runs the code.

    The environment is explicit: the prices a fetch returns, the time, and
    whether an awaited promise resolves or rejects are inputs of [step].  The
    [positions] collection is written by this process only, and a store
    operation that rejects has written nothing. *)

From Stdlib Require Import Floats ZArith Lia.
From stdpp Require Import base decidable option list strings.

(** ** JavaScript values and operators *)

(** The values that reach the arithmetic of the program: a number, the
    [undefined] that [Array.prototype.at] yields out of range, or the [null]
    the cached snapshot starts with. *)
Inductive value : Type :=
| undefined
| null
| number (x : float).

Module JS.

(** ECMAScript [ToNumber]. *)
Definition ToNumber (v : value) : float :=
  match v with
  | undefined => nan
  | null => zero
  | number x => x
  end.

(** [a < b]: false as soon as one side converts to NaN. *)
Definition lt (a b : value) : bool := (ToNumber a <? ToNumber b)%float.

(** [a > b] is [b < a]. *)
Definition gt (a b : value) : bool := (ToNumber b <? ToNumber a)%float.

(** [a - b] and [a * b]. *)
Definition sub (a b : value) : float := (ToNumber a - ToNumber b)%float.
Definition mul (a b : float) : float := (a * b)%float.

(** ECMAScript [ToBoolean] on a number: [0], [-0] and [NaN] are falsy. *)
Definition truthy (x : float) : bool := negb (is_zero x || is_nan x).

(** [x || d] on a number. *)
Definition or_default (x d : float) : float := if truthy x then x else d.

(** [arr.at(i)]: a negative index counts from the end. *)
Definition at_ (arr : list float) (i : Z) : value :=
  let len := Z.of_nat (length arr) in
  let k := if (i <? 0)%Z then (len + i)%Z else i in
  if ((k <? 0) || (len <=? k))%Z then undefined
  else match arr !! Z.to_nat k with
       | Some x => number x
       | None => undefined
       end.

(** [x.toFixed(2)] throws a TypeError on [undefined] and [null]. *)
Definition toFixed_throws (v : value) : bool :=
  match v with number _ => false | _ => true end.

End JS.

(** ** Signal detector (service.js, lines 103-107) *)

Inductive Signal : Type := NONE | GOLDEN | DEATH.

Definition detectCross (prevFast prevSlow fast slow : value) : Signal :=
  if JS.lt prevFast prevSlow && JS.gt fast slow then GOLDEN
  else if JS.gt prevFast prevSlow && JS.lt fast slow then DEATH
  else NONE.

(** ** Data model *)

Inductive Side : Type := LONG | SHORT.
Inductive Status : Type := OPEN | CLOSED.

#[global] Instance Side_eq_dec : EqDecision Side.
Proof. solve_decision. Defined.
#[global] Instance Status_eq_dec : EqDecision Status.
Proof. solve_decision. Defined.
#[global] Instance Signal_eq_dec : EqDecision Signal.
Proof. solve_decision. Defined.

(** What [new Date()] returns, in milliseconds. *)
Definition Date : Type := nat.

(** A document of the [positions] collection: the [base] object of
    [openTrade] (lines 129-140) and the fields that the [$set] of
    [closeTrade] adds (lines 171-179); [None] is an absent field. *)
Record Doc : Type := {
  symbol : string;
  status : Status;
  qty : float;
  positionType : Side;
  entryPrice : value;
  entryTime : Date;
  entryEMAfast : value;
  entryEMAslow : value;
  createdAt : Date;
  updatedAt : Date;
  exitPrice : option value;
  exitTime : option Date;
  exitEMAfast : option value;
  exitEMAslow : option value;
  profitLoss : option float;
}.

(** [_id]: the identifier the store assigns, or the string ["dryrun"]
    (line 142).  Documents are never deleted, so a stored document is
    identified by its insertion index in the collection. *)
Inductive Id : Type :=
| ObjectId (n : nat)
| dryrun.

(** The cached open position: [{ _id, ...base }]. *)
Record Position : Type := {
  _id : Id;
  fields : Doc;
}.

(** The cached snapshot (lines 89-98). *)
Record Snapshot : Type := {
  price : value;
  emaEntryFast : value;
  emaEntrySlow : value;
  emaExitFast : value;
  emaExitSlow : value;
  entrySignal : Signal;
  exitSignal : Signal;
  lastTickAt : option Date;
}.

(** The operators of the [$set] of lines 171-179. *)
Record CloseSet : Type := {
  set_exitPrice : value;
  set_exitTime : Date;
  set_exitEMAfast : value;
  set_exitEMAslow : value;
  set_profitLoss : float;
  set_updatedAt : Date;
}.

Definition apply_set (u : CloseSet) (d : Doc) : Doc :=
  {| symbol := symbol d;
     status := CLOSED;
     qty := qty d;
     positionType := positionType d;
     entryPrice := entryPrice d;
     entryTime := entryTime d;
     entryEMAfast := entryEMAfast d;
     entryEMAslow := entryEMAslow d;
     createdAt := createdAt d;
     updatedAt := set_updatedAt u;
     exitPrice := Some (set_exitPrice u);
     exitTime := Some (set_exitTime u);
     exitEMAfast := Some (set_exitEMAfast u);
     exitEMAslow := Some (set_exitEMAslow u);
     profitLoss := Some (set_profitLoss u) |}.

(** What the program prints. *)
Inductive Console : Type :=
| log_open (dry : bool) (side : Side) (px : value) (id : Id)     (* lines 143, 148 *)
| log_close (dry : bool) (side : Side) (px : value) (pnl : float) (* lines 161, 185 *)
| warn_no_open_position                                          (* line 189 *)
| warn_not_enough_candles                                        (* line 201 *)
| log_tick (s : Snapshot) (pos : option Position)                (* line 258 *)
| error_tick.                                                    (* line 266 *)

(** Ghost records: the writes the store has applied, and the calls of the
    trade operations together with the cached position they found. *)
Inductive Write : Type :=
| insert_one (id : nat)
| update_one (id : nat).

Inductive Call : Type :=
| call_openTrade (found : option Position)
| call_closeTrade (found : option Position).

(** The module-level state (lines 61-63 and 87-98), the console, and the
    ghost records. *)
Record World : Type := {
  isTickRunning : bool;
  openPosition : option Position;
  cached : Snapshot;
  positionsCol : list Doc;
  console : list Console;
  writes : list Write;
  calls : list Call;
}.

Definition with_isTickRunning (b : bool) (w : World) : World :=
  {| isTickRunning := b; openPosition := openPosition w; cached := cached w;
     positionsCol := positionsCol w; console := console w;
     writes := writes w; calls := calls w |}.

Definition with_openPosition (o : option Position) (w : World) : World :=
  {| isTickRunning := isTickRunning w; openPosition := o; cached := cached w;
     positionsCol := positionsCol w; console := console w;
     writes := writes w; calls := calls w |}.

Definition with_cached (c : Snapshot) (w : World) : World :=
  {| isTickRunning := isTickRunning w; openPosition := openPosition w; cached := c;
     positionsCol := positionsCol w; console := console w;
     writes := writes w; calls := calls w |}.

Definition with_store (col : list Doc) (wr : Write) (w : World) : World :=
  {| isTickRunning := isTickRunning w; openPosition := openPosition w; cached := cached w;
     positionsCol := col; console := console w;
     writes := writes w ++ [wr]; calls := calls w |}.

Definition print (c : Console) (w : World) : World :=
  {| isTickRunning := isTickRunning w; openPosition := openPosition w; cached := cached w;
     positionsCol := positionsCol w; console := console w ++ [c];
     writes := writes w; calls := calls w |}.

Definition record_call (c : Call) (w : World) : World :=
  {| isTickRunning := isTickRunning w; openPosition := openPosition w; cached := cached w;
     positionsCol := positionsCol w; console := console w;
     writes := writes w; calls := calls w ++ [c] |}.

(** ** The position store *)

(** [positionsCol.insertOne(doc)]: the document is appended and its index is
    the [insertedId]. *)
Definition insertOne (doc : Doc) (w : World) : World * nat :=
  let insertedId := length (positionsCol w) in
  (with_store (positionsCol w ++ [doc]) (insert_one insertedId) w, insertedId).

(** [positionsCol.findOneAndUpdate({ _id, status: "OPEN" }, { $set },
    { returnDocument: "after" })]: the result's [value] is the updated
    document, or nothing when no document matches the filter. *)
Definition findOneAndUpdate (id : Id) (u : CloseSet) (w : World) : World * option Doc :=
  match id with
  | ObjectId i =>
      match positionsCol w !! i with
      | Some d =>
          match status d with
          | OPEN =>
              let d' := apply_set u d in
              (with_store (<[i := d']> (positionsCol w)) (update_one i) w, Some d')
          | CLOSED => (w, None)
          end
      | None => (w, None)
      end
  | dryrun => (w, None)
  end.

(** The filter [{ symbol, status: "OPEN" }]. *)
Definition OpenFor (sym : string) (d : Doc) : Prop :=
  status d = OPEN /\ symbol d = sym.

#[global] Instance OpenFor_dec sym d : Decision (OpenFor sym d).
Proof. unfold OpenFor. apply _. Defined.

(** [find(filter)]: the matching documents with their identifiers. *)
Definition find (sym : string) (col : list Doc) : list (nat * Doc) :=
  filter (fun r => OpenFor sym r.2) (imap pair col).

(** [sort({ createdAt: -1 }).limit(1)]: the most recent row; the earliest
    inserted one among equally recent rows. *)
Definition newest (rows : list (nat * Doc)) : option (nat * Doc) :=
  foldr (fun r acc =>
           match acc with
           | Some b => if (createdAt b.2 <=? createdAt r.2)%nat then Some r else Some b
           | None => Some r
           end) None rows.

(** The number of open positions of an instrument in the store. *)
Definition open_count (sym : string) (col : list Doc) : nat :=
  length (filter (OpenFor sym) col).

(** ** Suspension points of the asynchronous functions *)

(** What a synchronous segment of [openTrade] or [closeTrade] ends with. *)
Inductive Outcome : Type :=
| returned
| threw
| await_insertOne (base : Doc)
| await_findOneAndUpdate (id : Id) (u : CloseSet).

(** A suspended invocation of [tick]: where it waits, with the locals that the
    rest of the function reads. *)
Inductive Frame : Type :=
| tick_at_fetchCloses                                    (* line 199 *)
| openTrade_at_insertOne (base : Doc) (locals : Snapshot) (* line 146, under 242/244 *)
| closeTrade_at_findOneAndUpdate (id : Id) (u : CloseSet) (locals : Snapshot)
                                                         (* line 168, under 249/251 *)
| tick_at_trade (rejected : bool) (locals : Snapshot).   (* lines 242-251: the trade
                                                            operation has settled *)

(** What the environment answers when a suspended invocation resumes. *)
Inductive Response : Type :=
| fetched (closes : list float)   (* axios.get resolved; closes = data.map(k => Number(k[4])) *)
| inserted                        (* insertOne resolved *)
| updated                         (* findOneAndUpdate resolved *)
| settled                         (* the promise of an async function, already settled *)
| rejected.                       (* the awaited promise rejected *)

(** ** Moving-average engine *)

Fixpoint ema_from (k prev : float) (xs : list float) : list float :=
  match xs with
  | [] => []
  | x :: xs' => let e := ((x - prev) * k + prev)%float in e :: ema_from k e xs'
  end.

Definition float_of_nat (n : nat) : float := of_uint63 (Uint63.of_Z (Z.of_nat n)).

(** Modelled from the spec: the Moving-Average Engine ([EMA.calculate] of the
    technicalindicators package, an external collaborator of this
    repository).  The result has [max(0, len(series) - period + 1)] elements,
    each the exponential moving average up to and including that sample; the
    first is the mean of the first [period] samples and the smoothing factor is
    [2 / (period + 1)]. *)
Definition EMA_model (period : nat) (values : list float) : list float :=
  if (length values <? period)%nat then []
  else
    let seed := (foldr PrimFloat.add 0 (take period values) / float_of_nat period)%float in
    seed :: ema_from (2 / float_of_nat (period + 1))%float seed (drop period values).

(** ** Configuration (lines 32-50) *)

Record Config : Type := {
  SYMBOL : string;
  EMA_ENTRY_FAST : nat;
  EMA_ENTRY_SLOW : nat;
  EMA_EXIT_FAST : nat;
  EMA_EXIT_SLOW : nat;
  DRY_RUN : bool;
}.

(** ** The event loop *)

(** The process: the state and the invocations of [tick] that are suspended
    at an [await]. *)
Record System : Type := {
  world : World;
  suspended : list Frame;
}.

(** [Invoke]: the timer or a request handler calls [tick()] (lines 298, 363,
    364, 368).  [Resume i r now]: the [i]-th suspended invocation resumes with
    the answer [r], at the time [now]. *)
Inductive Event : Type :=
| Invoke
| Resume (i : nat) (r : Response) (now : Date).

(** The snapshot the process starts with (lines 89-98). *)
Definition cached0 : Snapshot :=
  {| price := null; emaEntryFast := null; emaEntrySlow := null;
     emaExitFast := null; emaExitSlow := null;
     entrySignal := NONE; exitSignal := NONE; lastTickAt := None |}.

(** The state at load time, over the collection as the store holds it. *)
Definition initial (col : list Doc) : World :=
  {| isTickRunning := false; openPosition := None; cached := cached0;
     positionsCol := col; console := []; writes := []; calls := [] |}.

(** ** Sample configuration and inputs *)

Definition cfg_demo : Config :=
  {| SYMBOL := "BTCUSDT";
     EMA_ENTRY_FAST := 2; EMA_ENTRY_SLOW := 3;
     EMA_EXIT_FAST := 2; EMA_EXIT_SLOW := 3;
     DRY_RUN := false |}.

Definition cfg_dry : Config :=
  {| SYMBOL := "BTCUSDT";
     EMA_ENTRY_FAST := 2; EMA_ENTRY_SLOW := 3;
     EMA_EXIT_FAST := 2; EMA_EXIT_SLOW := 3;
     DRY_RUN := true |}.

(** A falling series that jumps: the fast average crosses above the slow one
    on the last sample. *)
Definition closes_golden : list float := [10; 9; 8; 7; 20]%float.

(** A rising series that drops: the fast average crosses below the slow one
    on the last sample. *)
Definition closes_death : list float := [7; 8; 9; 10; 2]%float.

(** A long position entered at 100, as [openTrade] stores it. *)
Definition long_at_100 : Doc :=
  {| symbol := "BTCUSDT"; status := OPEN; qty := 1; positionType := LONG;
     entryPrice := number 100; entryTime := 1; entryEMAfast := number 99;
     entryEMAslow := number 98; createdAt := 1; updatedAt := 1;
     exitPrice := None; exitTime := None; exitEMAfast := None;
     exitEMAslow := None; profitLoss := None |}.

(** The state of a process that holds [long_at_100], stored under identifier 0. *)
Definition holding_long : World :=
  with_openPosition (Some {| _id := ObjectId 0; fields := long_at_100 |})
    (initial [long_at_100]).

(** The state of a process whose cache still holds [long_at_100] while the
    record in the store has been closed by someone else. *)
Definition stale_cache : World :=
  with_openPosition (Some {| _id := ObjectId 0; fields := long_at_100 |})
    (initial [apply_set {| set_exitPrice := number 95; set_exitTime := 2;
                           set_exitEMAfast := number 96; set_exitEMAslow := number 97;
                           set_profitLoss := (-5)%float; set_updatedAt := 2 |}
                long_at_100]).

(** Two ticks over a store that holds [long_at_100]: the first closes it on a
    death cross, the second opens a new position on a golden cross. *)
Definition close_then_open : list Event :=
  [ Invoke; Resume 0 (fetched closes_death) 2000; Resume 0 updated 2001;
    Resume 0 settled 2002;
    Invoke; Resume 0 (fetched closes_golden) 3000; Resume 0 inserted 3001;
    Resume 0 settled 3002 ].

(** What one tick does to the positions. *)
Inductive Action : Type :=
| act_open (side : Side)
| act_close
| act_none.

(** The decision rule of the strategy loop as the specification words it
    (section 4.2, step 5), from the cached position and the two signals; the
    code's own logic is [trade] below. *)
Definition spec_decision (pos : option Position) (entrySig exitSig : Signal) : Action :=
  match pos with
  | None =>
      match entrySig with
      | GOLDEN => act_open LONG
      | DEATH => act_open SHORT
      | NONE => act_none
      end
  | Some p =>
      match positionType (fields p), exitSig with
      | LONG, DEATH => act_close
      | SHORT, GOLDEN => act_close
      | _, _ => act_none
      end
  end.

(** A recorded call respects the lifecycle: [openTrade] found no cached
    position, [closeTrade] found one. *)
Definition call_ok (c : Call) : Prop :=
  match c with
  | call_openTrade found => found = None
  | call_closeTrade found => is_Some found
  end.

Section Bot.

Variable cfg : Config.

(** [EMA.calculate({ period, values })] of the technicalindicators
    package. *)
Variable EMA_calculate : nat -> list float -> list float.

(** *** Start-up reconciliation (lines 109-117) *)

Definition restoreOpenPosition (w : World) : World :=
  if DRY_RUN cfg then w
  else
    let doc := newest (find (SYMBOL cfg) (positionsCol w)) in
    with_openPosition ((fun r => {| _id := ObjectId r.1; fields := r.2 |}) <$> doc) w.

(** *** Trade operations *)

(** The [base] object of [openTrade], lines 129-140. *)
Definition base_of (side : Side) (px emaFast emaSlow : value) (now : Date) : Doc :=
  {| symbol := SYMBOL cfg;
     status := OPEN;
     qty := 1;
     positionType := side;
     entryPrice := px;
     entryTime := now;
     entryEMAfast := emaFast;
     entryEMAslow := emaSlow;
     createdAt := now;
     updatedAt := now;
     exitPrice := None; exitTime := None; exitEMAfast := None;
     exitEMAslow := None; profitLoss := None |}.

(** [openTrade], lines 128-146: up to the [await] of [insertOne]. *)
Definition openTrade (side : Side) (px emaFast emaSlow : value) (now : Date)
    (w : World) : World * Outcome :=
  let base := base_of side px emaFast emaSlow now in
  if DRY_RUN cfg then
    let w := with_openPosition (Some {| _id := dryrun; fields := base |}) w in
    (print (log_open true side px dryrun) w, returned)
  else (w, await_insertOne base).

(** [openTrade], lines 146-148: from the answer of [insertOne]. *)
Definition openTrade_resume (base : Doc) (r : Response) (w : World)
    : option (World * Outcome) :=
  match r with
  | inserted =>
      let '(w, insertedId) := insertOne base w in
      let w := with_openPosition (Some {| _id := ObjectId insertedId; fields := base |}) w in
      Some (print (log_open false (positionType base) (entryPrice base)
                     (ObjectId insertedId)) w, returned)
  | rejected => Some (w, threw)
  | _ => None
  end.

(** The profit or loss of lines 154-158. *)
Definition pnl_of (pos : Position) (px : value) : float :=
  let q := JS.or_default (qty (fields pos)) 1 in
  let isLong := bool_decide (positionType (fields pos) = LONG) in
  JS.mul (if isLong then JS.sub px (entryPrice (fields pos))
          else JS.sub (entryPrice (fields pos)) px) q.

(** [closeTrade], lines 151-168: up to the [await] of [findOneAndUpdate]. *)
Definition closeTrade (px emaFast emaSlow : value) (now : Date)
    (w : World) : World * Outcome :=
  match openPosition w with
  | None => (w, returned)
  | Some pos =>
      let pnl := pnl_of pos px in
      if DRY_RUN cfg then
        let w := print (log_close true (positionType (fields pos)) px pnl) w in
        (with_openPosition None w, returned)
      else
        (w, await_findOneAndUpdate (_id pos)
              {| set_exitPrice := px;
                 set_exitTime := now;
                 set_exitEMAfast := emaFast;
                 set_exitEMAslow := emaSlow;
                 set_profitLoss := pnl;
                 set_updatedAt := now |})
  end.

(** [closeTrade], lines 168-191: from the answer of [findOneAndUpdate]. *)
Definition closeTrade_resume (id : Id) (u : CloseSet) (r : Response) (w : World)
    : option (World * Outcome) :=
  match r with
  | updated =>
      let '(w, res) := findOneAndUpdate id u w in
      let w :=
        match res with
        | Some v => print (log_close false (positionType v) (set_exitPrice u)
                             (set_profitLoss u)) w
        | None => print warn_no_open_position w
        end in
      Some (with_openPosition None w, returned)
  | rejected => Some (w, threw)
  | _ => None
  end.

(** *** Strategy tick *)

(** The [finally] of lines 267-269. *)
Definition tick_finally (w : World) : World := with_isTickRunning false w.

(** The [catch] of lines 265-266, then the [finally]. *)
Definition tick_catch (w : World) : World := tick_finally (print error_tick w).

(** Lines 255-264, then the [finally]: [toFixed] throws on a moving average
    that is [undefined]. *)
Definition tick_report (locals : Snapshot) (w : World) : World :=
  if JS.toFixed_throws (emaEntryFast locals) || JS.toFixed_throws (emaEntrySlow locals)
     || JS.toFixed_throws (emaExitFast locals) || JS.toFixed_throws (emaExitSlow locals)
  then tick_catch w
  else tick_finally (print (log_tick locals (openPosition w)) w).

(** [tick()], lines 195-199: up to the [await] of [fetchCloses]. *)
Definition tick (w : World) : World * option Frame :=
  if isTickRunning w then (w, None)
  else (with_isTickRunning true w, Some tick_at_fetchCloses).

(** [await openTrade(..)] and [await closeTrade(..)]: the invocation waits
    for the trade operation, which has returned, thrown or is itself
    suspended. *)
Definition await_trade (locals : Snapshot) (r : World * Outcome) : World * option Frame :=
  match r.2 with
  | returned => (r.1, Some (tick_at_trade false locals))
  | threw => (r.1, Some (tick_at_trade true locals))
  | await_insertOne base => (r.1, Some (openTrade_at_insertOne base locals))
  | await_findOneAndUpdate id u => (r.1, Some (closeTrade_at_findOneAndUpdate id u locals))
  end.

(** Lines 206-237: the four moving-average series, their last two elements,
    the two signals, and the object assigned to [cached]. *)
Definition evaluate (closes : list float) (now : Date) : Snapshot :=
  let entryFastArr := EMA_calculate (EMA_ENTRY_FAST cfg) closes in
  let entrySlowArr := EMA_calculate (EMA_ENTRY_SLOW cfg) closes in
  let exitFastArr := EMA_calculate (EMA_EXIT_FAST cfg) closes in
  let exitSlowArr := EMA_calculate (EMA_EXIT_SLOW cfg) closes in
  let fastPrevEntry := JS.at_ entryFastArr (-2) in
  let slowPrevEntry := JS.at_ entrySlowArr (-2) in
  let fastEntry := JS.at_ entryFastArr (-1) in
  let slowEntry := JS.at_ entrySlowArr (-1) in
  let fastPrevExit := JS.at_ exitFastArr (-2) in
  let slowPrevExit := JS.at_ exitSlowArr (-2) in
  let fastExit := JS.at_ exitFastArr (-1) in
  let slowExit := JS.at_ exitSlowArr (-1) in
  let px := JS.at_ closes (-1) in
  let entrySig := detectCross fastPrevEntry slowPrevEntry fastEntry slowEntry in
  let exitSig := detectCross fastPrevExit slowPrevExit fastExit slowExit in
  {| price := px;
     emaEntryFast := fastEntry;
     emaEntrySlow := slowEntry;
     emaExitFast := fastExit;
     emaExitSlow := slowExit;
     entrySignal := entrySig;
     exitSignal := exitSig;
     lastTickAt := Some now |}.

(** Lines 239-253: the entry and exit logic, over the locals of the tick. *)
Definition trade (locals : Snapshot) (now : Date) (w : World) : World * option Frame :=
  match openPosition w with
  | None =>
      if bool_decide (entrySignal locals = GOLDEN) then
        await_trade locals
          (openTrade LONG (price locals) (emaEntryFast locals) (emaEntrySlow locals) now
             (record_call (call_openTrade (openPosition w)) w))
      else if bool_decide (entrySignal locals = DEATH) then
        await_trade locals
          (openTrade SHORT (price locals) (emaEntryFast locals) (emaEntrySlow locals) now
             (record_call (call_openTrade (openPosition w)) w))
      else (tick_report locals w, None)
  | Some pos =>
      if bool_decide (exitSignal locals = GOLDEN)
         && bool_decide (positionType (fields pos) = SHORT) then
        await_trade locals
          (closeTrade (price locals) (emaExitFast locals) (emaExitSlow locals) now
             (record_call (call_closeTrade (openPosition w)) w))
      else if bool_decide (exitSignal locals = DEATH)
              && bool_decide (positionType (fields pos) = LONG) then
        await_trade locals
          (closeTrade (price locals) (emaExitFast locals) (emaExitSlow locals) now
             (record_call (call_closeTrade (openPosition w)) w))
      else (tick_report locals w, None)
  end.

(** [tick()], lines 199-264: from the answer of [fetchCloses] on. *)
Definition tick_resume_fetch (r : Response) (now : Date) (w : World)
    : option (World * option Frame) :=
  match r with
  | fetched closes =>
      if (length closes <? Nat.max (EMA_ENTRY_SLOW cfg) (EMA_EXIT_SLOW cfg))%nat then
        Some (tick_finally (print warn_not_enough_candles w), None)
      else
        let locals := evaluate closes now in
        Some (trade locals now (with_cached locals w))
  | rejected => Some (tick_catch w, None)
  | _ => None
  end.

(** A suspended invocation resumes; [None] when the answer is not one its
    [await] can receive. *)
Definition resume (f : Frame) (r : Response) (now : Date) (w : World)
    : option (World * option Frame) :=
  match f with
  | tick_at_fetchCloses => tick_resume_fetch r now w
  | openTrade_at_insertOne base locals =>
      await_trade locals <$> openTrade_resume base r w
  | closeTrade_at_findOneAndUpdate id u locals =>
      await_trade locals <$> closeTrade_resume id u r w
  | tick_at_trade threw_ locals =>
      match r with
      | settled => Some (if threw_ then tick_catch w else tick_report locals w, None)
      | _ => None
      end
  end.

(** One turn of the event loop. *)
Definition step (s : System) (e : Event) : option System :=
  match e with
  | Invoke =>
      let '(w, f) := tick (world s) in
      Some {| world := w; suspended := suspended s ++ option_list f |}
  | Resume i r now =>
      f ← suspended s !! i;
      '(w, f') ← resume f r now (world s);
      Some {| world := w;
              suspended := match f' with
                           | Some f' => <[i := f']> (suspended s)
                           | None => delete i (suspended s)
                           end |}
  end.

Fixpoint run (s : System) (evs : list Event) : option System :=
  match evs with
  | [] => Some s
  | e :: evs' => s' ← step s e; run s' evs'
  end.

(** [bootstrap()], lines 348-355, over the collection [col]. *)
Definition bootstrap (col : list Doc) : System :=
  {| world := restoreOpenPosition (initial col); suspended := [] |}.

(** ** Facts on the comparison of binary64 numbers *)

(** What the tick does for an action of the decision rule, once [cached] is
    assigned. *)
Definition perform (a : Action) (locals : Snapshot) (now : Date) (w : World)
    : World * option Frame :=
  match a with
  | act_open side =>
      await_trade locals
        (openTrade side (price locals) (emaEntryFast locals) (emaEntrySlow locals) now
           (record_call (call_openTrade (openPosition w)) w))
  | act_close =>
      await_trade locals
        (closeTrade (price locals) (emaExitFast locals) (emaExitSlow locals) now
           (record_call (call_closeTrade (openPosition w)) w))
  | act_none => (tick_report locals w, None)
  end.

(** *** Invariant of the event loop *)

(** The cached position and the store agree: the cached position is the one
    open position of the instrument in the store, and without a cached
    position the store holds no open position of the instrument. *)
Definition synced (o : option Position) (col : list Doc) : Prop :=
  match o with
  | None => forall j d, col !! j = Some d -> ~ OpenFor (SYMBOL cfg) d
  | Some p =>
      exists i, _id p = ObjectId i
        /\ (exists d, col !! i = Some d /\ OpenFor (SYMBOL cfg) d)
        /\ forall j d, col !! j = Some d -> OpenFor (SYMBOL cfg) d -> j = i
  end.

(** A suspended store operation was issued from the cache as it still is. *)
Definition frame_ok (f : Frame) (w : World) : Prop :=
  match f with
  | openTrade_at_insertOne base _ =>
      DRY_RUN cfg = false /\ openPosition w = None /\ OpenFor (SYMBOL cfg) base
  | closeTrade_at_findOneAndUpdate id _ _ =>
      DRY_RUN cfg = false /\ exists p, openPosition w = Some p /\ _id p = id
  | _ => True
  end.

Record Inv (s : System) : Prop := {
  inv_store :
    if DRY_RUN cfg then open_count (SYMBOL cfg) (positionsCol (world s)) <= 1
    else synced (openPosition (world s)) (positionsCol (world s));
  inv_frames :
    (suspended s = [] /\ isTickRunning (world s) = false)
    \/ (exists f, suspended s = [f] /\ isTickRunning (world s) = true
                  /\ frame_ok f (world s));
  inv_calls : Forall call_ok (calls (world s));
}.

(** The part of the invariant that speaks of the state alone. *)
Definition WInv (w : World) : Prop :=
  (if DRY_RUN cfg then open_count (SYMBOL cfg) (positionsCol w) <= 1
   else synced (openPosition w) (positionsCol w))
  /\ Forall call_ok (calls w).

(** What a resumed invocation leaves behind: the invariant of the state, and
    either the released guard or a well-formed suspension under the guard
    as it was. *)
Definition follows (w : World) (r : World * option Frame) : Prop :=
  WInv r.1
  /\ match r.2 with
     | None => isTickRunning r.1 = false
     | Some f => isTickRunning r.1 = isTickRunning w /\ frame_ok f r.1
     end.

(** ** Lists of documents *)

Section Store.

Variable sym : string.

Lemma open_count_none (col : list Doc) :
  (forall j d, col !! j = Some d -> ~ OpenFor sym d) -> open_count sym col = 0.
Proof.
  unfold open_count. induction col as [|x col IH]; intros H; [reflexivity|].
  rewrite filter_cons_False by (apply (H 0); reflexivity).
  apply IH. intros j d Hj. apply (H (S j)). exact Hj.
Qed.

Lemma open_count_at_most_one (col : list Doc) (i : nat) :
  (forall j d, col !! j = Some d -> OpenFor sym d -> j = i) -> open_count sym col <= 1.
Proof.
  revert i. induction col as [|x col IH]; intros i H; [cbn; lia|].
  destruct (decide (OpenFor sym x)) as [Hx|Hx].
  - unfold open_count. rewrite filter_cons_True by exact Hx. cbn.
    fold (open_count sym col). rewrite open_count_none; [lia|].
    intros j d Hj Hd. pose proof (H 0 x eq_refl Hx). pose proof (H (S j) d Hj Hd). lia.
  - unfold open_count. rewrite filter_cons_False by exact Hx.
    apply (IH (pred i)). intros j d Hj Hd. pose proof (H (S j) d Hj Hd). lia.
Qed.

Lemma open_count_unique (col : list Doc) (i j : nat) (d d' : Doc) :
  open_count sym col <= 1 ->
  col !! i = Some d -> OpenFor sym d ->
  col !! j = Some d' -> OpenFor sym d' -> i = j.
Proof.
  unfold open_count. revert i j.
  induction col as [|x col IH]; intros i j Hc Hi Hd Hj Hd'; [discriminate|].
  assert (Hnone : length (filter (OpenFor sym) col) = 0 ->
                  forall k e, col !! k = Some e -> ~ OpenFor sym e).
  { intros Hl k e Hk He. apply nil_length_inv in Hl.
    eapply filter_nil_not_elem_of; [exact Hl|exact He|].
    eapply list_elem_of_lookup_2; exact Hk. }
  destruct (decide (OpenFor sym x)) as [Hx|Hx].
  - rewrite filter_cons_True in Hc by exact Hx. cbn in Hc.
    destruct i as [|i], j as [|j]; try reflexivity; exfalso.
    + eapply Hnone; [lia|exact Hj|exact Hd'].
    + eapply Hnone; [lia|exact Hi|exact Hd].
    + eapply Hnone; [lia|exact Hi|exact Hd].
  - rewrite filter_cons_False in Hc by exact Hx.
    destruct i as [|i], j as [|j]; cbn in Hi, Hj; simplify_eq; try contradiction.
    f_equal. eapply IH; eauto.
Qed.

Lemma find_spec (col : list Doc) (r : nat * Doc) :
  r ∈ find sym col <-> col !! r.1 = Some r.2 /\ OpenFor sym r.2.
Proof.
  unfold find. rewrite list_elem_of_filter, elem_of_lookup_imap. split.
  - intros [Ho (i & d & -> & Hi)]. cbn in *. auto.
  - intros [Hi Ho]. split; [exact Ho|]. exists r.1, r.2. destruct r; auto.
Qed.

Lemma newest_elem (rows : list (nat * Doc)) (r : nat * Doc) :
  newest rows = Some r -> r ∈ rows.
Proof.
  revert r. induction rows as [|x rows IH]; intros r; cbn; [discriminate|].
  fold (newest rows). destruct (newest rows) as [b|].
  - destruct (createdAt b.2 <=? createdAt x.2)%nat; intros [= <-].
    + left.
    + right. apply IH. reflexivity.
  - intros [= <-]. left.
Qed.

Lemma newest_none (rows : list (nat * Doc)) : newest rows = None -> rows = [].
Proof.
  destruct rows as [|x rows]; [reflexivity|]. cbn. fold (newest rows).
  destruct (newest rows) as [b|]; [|discriminate].
  destruct (createdAt b.2 <=? createdAt x.2)%nat; discriminate.
Qed.

End Store.

Section FloatOrder.

Lemma SFcompare_antisym (x y : spec_float) :
  SFcompare y x = CompOpp <$> SFcompare x y.
Proof.
  destruct x as [sx|sx| |sx mx ex], y as [sy|sy| |sy my ey];
    try reflexivity; try (destruct sx; reflexivity);
    try (destruct sy; reflexivity);
    try (destruct sx, sy; reflexivity).
  cbn [SFcompare fmap option_fmap option_map].
  rewrite (Z.compare_antisym ey ex).
  destruct sx, sy; try reflexivity;
    destruct (ey ?= ex)%Z; cbn; try reflexivity;
    rewrite (Pos.compare_cont_antisym mx my Eq); reflexivity.
Qed.

Lemma ltb_asym (x y : float) : (x <? y)%float = true -> (y <? x)%float = false.
Proof.
  rewrite !ltb_spec. unfold SFltb.
  rewrite (SFcompare_antisym (Prim2SF x) (Prim2SF y)).
  destruct (SFcompare (Prim2SF x) (Prim2SF y)) as [[]|]; cbn; congruence.
Qed.

Lemma eqb_not_ltb (x y : float) :
  (x =? y)%float = true -> (x <? y)%float = false /\ (y <? x)%float = false.
Proof.
  rewrite FloatAxioms.eqb_spec, !ltb_spec. unfold SFeqb, SFltb.
  rewrite (SFcompare_antisym (Prim2SF x) (Prim2SF y)).
  destruct (SFcompare (Prim2SF x) (Prim2SF y)) as [[]|]; cbn; intuition congruence.
Qed.

End FloatOrder.

(** C2. For all numbers, [detectCross] answers GOLDEN exactly when
  [prevFast < prevSlow] and [fast > slow], DEATH exactly when
  [prevFast > prevSlow] and [fast < slow], and NONE in every other case;
  a tie [prevFast == prevSlow] or [fast == slow] gives NONE. *)
Theorem detectCross_spec (prevFast prevSlow fast slow : float) :
let r := detectCross (number prevFast) (number prevSlow) (number fast) (number slow) in
let golden := (prevFast <? prevSlow)%float = true /\ (slow <? fast)%float = true in
let death := (prevSlow <? prevFast)%float = true /\ (fast <? slow)%float = true in
(r = GOLDEN <-> golden) /\
(r = DEATH <-> death) /\
(r = NONE <-> ~ golden /\ ~ death) /\
((prevFast =? prevSlow)%float = true \/ (fast =? slow)%float = true -> r = NONE).
Proof.
cbv zeta. unfold detectCross, JS.lt, JS.gt. cbn [JS.ToNumber].
destruct (prevFast <? prevSlow)%float eqn:E1, (prevSlow <? prevFast)%float eqn:E2;
  try (apply ltb_asym in E1; congruence);
  destruct (slow <? fast)%float eqn:E3, (fast <? slow)%float eqn:E4;
  try (apply ltb_asym in E3; congruence);
  cbn; (repeat split; try intuition congruence);
  intros [H|H]; apply eqb_not_ltb in H; intuition congruence.
Qed.

(** ** The invariant holds at start-up and is kept by every turn *)

Lemma synced_open_count (o : option Position) (col : list Doc) :
  synced o col -> open_count (SYMBOL cfg) col <= 1.
Proof.
  destruct o as [p|]; cbn.
  - intros (i & _ & _ & H). eapply open_count_at_most_one; exact H.
  - intros H. rewrite open_count_none by exact H. lia.
Qed.

Lemma restore_synced (col : list Doc) :
  DRY_RUN cfg = false ->
  open_count (SYMBOL cfg) col <= 1 ->
  synced (openPosition (restoreOpenPosition (initial col))) col.
Proof.
  intros Hdry Hc. unfold restoreOpenPosition. rewrite Hdry.
  cbn [initial positionsCol openPosition with_openPosition].
  destruct (newest (find (SYMBOL cfg) col)) as [[i d]|] eqn:E; cbn.
  - apply newest_elem, find_spec in E as [Hi Hd]. cbn in Hi, Hd.
    exists i. split; [reflexivity|]. split; [eauto|].
    intros j d' Hj Hd'. eapply open_count_unique; eauto.
  - apply newest_none in E. intros j d Hj Hd.
    assert (H : (j, d) ∈ find (SYMBOL cfg) col) by (apply find_spec; auto).
    rewrite E in H. inversion H.
Qed.

Lemma Inv_bootstrap (col : list Doc) :
  open_count (SYMBOL cfg) col <= 1 -> Inv (bootstrap col).
Proof.
  intros Hc. split.
  - destruct (DRY_RUN cfg) eqn:Hdry.
    + unfold bootstrap, restoreOpenPosition. rewrite Hdry. exact Hc.
    + pose proof (restore_synced col Hdry Hc) as H.
      unfold bootstrap, restoreOpenPosition in *. rewrite Hdry in *. exact H.
  - left. unfold bootstrap, restoreOpenPosition. destruct (DRY_RUN cfg); auto.
  - unfold bootstrap, restoreOpenPosition. destruct (DRY_RUN cfg); constructor.
Qed.

Lemma calls_snoc (cs : list Call) (c : Call) :
  Forall call_ok cs -> call_ok c -> Forall call_ok (cs ++ [c]).
Proof. intros H1 H2. apply Forall_app. split; [exact H1|]. repeat constructor. exact H2. Qed.

Ltac close_follows :=
  cbn; repeat split;
  first [ assumption
        | apply calls_snoc; [assumption | cbn; eauto]
        | eauto ].

Lemma tick_report_follows (locals : Snapshot) (w : World) :
  WInv w -> follows w (tick_report locals w, None).
Proof.
  intros [Hs Hc]. unfold follows, WInv, tick_report, tick_catch, tick_finally.
  destruct (_ || _); cbn; auto.
Qed.

Lemma tick_catch_follows (w : World) : WInv w -> follows w (tick_catch w, None).
Proof. intros [Hs Hc]. unfold follows, WInv; cbn; auto. Qed.

Lemma trade_follows (locals : Snapshot) (now : Date) (w : World) :
  WInv w -> follows w (trade locals now w).
Proof.
  intros Hw. pose proof Hw as [Hs Hc]. unfold trade.
  destruct (openPosition w) as [pos|] eqn:Ho.
  - destruct (_ && _); [|destruct (_ && _)];
      try (apply tick_report_follows; exact Hw);
      unfold follows, WInv, closeTrade, await_trade; cbn; rewrite Ho;
      destruct (DRY_RUN cfg) eqn:Hdry; cbn; rewrite ?Ho; close_follows.
  - destruct (bool_decide _); [|destruct (bool_decide _)];
      try (apply tick_report_follows; exact Hw);
      unfold follows, WInv, openTrade, await_trade; cbn;
      destruct (DRY_RUN cfg) eqn:Hdry; cbn; rewrite ?Ho; close_follows.
Qed.

Lemma insert_synced (base : Doc) (col : list Doc) :
  OpenFor (SYMBOL cfg) base ->
  synced None col ->
  synced (Some {| _id := ObjectId (length col); fields := base |}) (col ++ [base]).
Proof.
  intros Hb Hn. exists (length col). split; [reflexivity|]. split.
  - exists base. split; [|exact Hb].
    rewrite lookup_app_r by lia. now rewrite Nat.sub_diag.
  - intros j d Hj Hd. apply lookup_app_Some in Hj as [Hj|[Hlen Hj]].
    + exfalso. exact (Hn j d Hj Hd).
    + apply list_lookup_singleton_Some in Hj as [Hj _]. lia.
Qed.

Lemma update_synced (p : Position) (u : CloseSet) (w : World) :
  synced (Some p) (positionsCol w) ->
  exists i d, _id p = ObjectId i /\ positionsCol w !! i = Some d /\ status d = OPEN
    /\ findOneAndUpdate (_id p) u w
       = (with_store (<[i := apply_set u d]> (positionsCol w)) (update_one i) w,
          Some (apply_set u d))
    /\ synced None (<[i := apply_set u d]> (positionsCol w)).
Proof.
  intros (i & Hid & (d & Hi & Hd) & Huniq). exists i, d.
  split; [exact Hid|]. split; [exact Hi|]. split; [apply Hd|]. split.
  - unfold findOneAndUpdate. rewrite Hid, Hi. destruct Hd as [-> _]. reflexivity.
  - intros j d' Hj Hd'. apply list_lookup_insert_Some in Hj as [(-> & <- & _)|[Hne Hj]].
    + destruct Hd' as [Hst _]. discriminate.
    + apply Hne. symmetry. exact (Huniq j d' Hj Hd').
Qed.

Lemma resume_follows (f : Frame) (r : Response) (now : Date) (w : World)
    (res : World * option Frame) :
  WInv w -> frame_ok f w -> resume f r now w = Some res -> follows w res.
Proof.
  intros Hw Hf Hres. pose proof Hw as [Hs Hc].
  destruct f as [|base locals|id u locals|thr locals]; cbn in Hres.
  - unfold tick_resume_fetch in Hres. destruct r; try discriminate.
    + destruct (_ <? _)%nat; injection Hres as <-.
      * unfold follows, WInv; cbn; auto.
      * assert (Hw' : WInv (with_cached (evaluate closes now) w)) by exact Hw.
        exact (trade_follows _ now _ Hw').
    + injection Hres as <-. apply tick_catch_follows, Hw.
  - destruct Hf as (Hdry & Ho & Hb). rewrite Hdry, Ho in Hs.
    destruct r; try discriminate; cbn in Hres; injection Hres as <-.
    + unfold follows, WInv, await_trade; cbn. rewrite Hdry.
      repeat split; auto. apply insert_synced; assumption.
    + unfold follows, WInv, await_trade; cbn. rewrite Hdry, Ho. auto.
  - destruct Hf as (Hdry & p & Ho & Hid). rewrite Hdry, Ho in Hs. subst id.
    destruct r; try discriminate; cbn in Hres.
    + destruct (update_synced p u w Hs) as (i & d & _ & _ & _ & Hupd & Hsync).
      unfold closeTrade_resume in Hres. cbn in Hres. rewrite Hupd in Hres.
      cbn in Hres. injection Hres as <-.
      unfold follows, WInv, await_trade; cbn. rewrite Hdry. auto.
    + injection Hres as <-. unfold follows, WInv, await_trade; cbn.
      rewrite Hdry, Ho. auto.
  - destruct r; try discriminate. injection Hres as <-.
    destruct thr; [apply tick_catch_follows|apply tick_report_follows]; exact Hw.
Qed.

Lemma Inv_step (s s' : System) (e : Event) :
  Inv s -> step s e = Some s' -> Inv s'.
Proof.
  intros [Hs Hfr Hc] Hstep. destruct s as [w fr]. cbn in *.
  destruct e as [|i r now]; cbn in Hstep.
  - unfold tick in Hstep.
    destruct Hfr as [[-> Hg]|(f & -> & Hg & Hf)]; rewrite Hg in Hstep;
      injection Hstep as <-; split; cbn; auto.
    + right. exists tick_at_fetchCloses. cbn. auto.
    + right. exists f. auto.
  - destruct Hfr as [[-> Hg]|(f & -> & Hg & Hf)]; [discriminate|].
    destruct i as [|i]; [|discriminate]. cbn in Hstep.
    destruct (resume f r now w) as [[w' f']|] eqn:Hres; [|discriminate].
    cbn in Hstep. injection Hstep as <-.
    destruct (resume_follows f r now w (w', f') (conj Hs Hc) Hf Hres) as [[Hs' Hc'] Hn].
    cbn in *. split; cbn; auto.
    destruct f' as [f'|]; cbn.
    + right. exists f'. destruct Hn. split; [reflexivity|]. split; [congruence|assumption].
    + left. auto.
Qed.

Lemma Inv_run (evs : list Event) (s s' : System) :
  Inv s -> run s evs = Some s' -> Inv s'.
Proof.
  revert s. induction evs as [|e evs IH]; intros s Hs Hrun; cbn in Hrun.
  - congruence.
  - destruct (step s e) as [s1|] eqn:He; [|discriminate]. cbn in Hrun.
    eapply IH; [|exact Hrun]. eapply Inv_step; eauto.
Qed.

(** ** The single open position *)

(** C1. From a store that holds at most one open position of the instrument,
    after start-up and any sequence of tick invocations and resumptions, the
    store holds at most one open position of the instrument; every recorded
    call of [openTrade] found no cached position and every recorded call of
    [closeTrade] found one; and at most one invocation of [tick] is in
    flight. *)
Theorem single_open_position (col : list Doc) (evs : list Event) (s : System) :
  open_count (SYMBOL cfg) col <= 1 ->
  run (bootstrap col) evs = Some s ->
  open_count (SYMBOL cfg) (positionsCol (world s)) <= 1
  /\ Forall call_ok (calls (world s))
  /\ length (suspended s) <= 1.
Proof.
  intros Hc Hrun.
  destruct (Inv_run evs _ _ (Inv_bootstrap col Hc) Hrun) as [Hs Hfr Hcalls].
  split; [|split; [exact Hcalls|]].
  - destruct (DRY_RUN cfg); [exact Hs|]. eapply synced_open_count; exact Hs.
  - destruct Hfr as [[-> _]|(f & -> & _)]; cbn; lia.
Qed.

(** ** Closing a position *)

(** C6. With a cached open position whose record is still open in the store,
    [closeTrade] records [profitLoss = (exitPrice - entryPrice) * qty] for a
    LONG and [(entryPrice - exitPrice) * qty] for a SHORT; a LONG entered at
    100 and closed at 90 with quantity 1 records -10. *)
Theorem closeTrade_profitLoss (w : World) (pos : Position) (i : nat) (d : Doc)
    (px emaFast emaSlow : value) (now : Date) :
  DRY_RUN cfg = false ->
  openPosition w = Some pos ->
  _id pos = ObjectId i ->
  positionsCol w !! i = Some d ->
  status d = OPEN ->
  JS.truthy (qty (fields pos)) = true ->
  let exitP := JS.ToNumber px in
  let entryP := JS.ToNumber (entryPrice (fields pos)) in
  let pnl :=
    match positionType (fields pos) with
    | LONG => ((exitP - entryP) * qty (fields pos))%float
    | SHORT => ((entryP - exitP) * qty (fields pos))%float
    end in
  (exists u w' d',
      closeTrade px emaFast emaSlow now w = (w, await_findOneAndUpdate (ObjectId i) u)
      /\ set_profitLoss u = pnl
      /\ closeTrade_resume (ObjectId i) u updated w = Some (w', returned)
      /\ positionsCol w' !! i = Some d'
      /\ status d' = CLOSED
      /\ exitPrice d' = Some px
      /\ profitLoss d' = Some pnl)
  /\ (positionType (fields pos) = LONG -> entryP = 100%float -> exitP = 90%float ->
      qty (fields pos) = 1%float -> pnl = (-10)%float).
Proof.
  intros Hdry Ho Hid Hi Hd Hq. cbv zeta. split.
  - assert (Hpnl : pnl_of pos px
                   = match positionType (fields pos) with
                     | LONG => ((JS.ToNumber px - JS.ToNumber (entryPrice (fields pos)))
                                * qty (fields pos))%float
                     | SHORT => ((JS.ToNumber (entryPrice (fields pos)) - JS.ToNumber px)
                                 * qty (fields pos))%float
                     end).
    { unfold pnl_of, JS.or_default, JS.mul, JS.sub. rewrite Hq.
      destruct (positionType (fields pos)); reflexivity. }
    eexists _, _, _. unfold closeTrade. rewrite Ho, Hdry, Hid.
    split; [reflexivity|]. split; [exact Hpnl|].
    unfold closeTrade_resume, findOneAndUpdate.
    rewrite Hi, Hd. cbn. split; [reflexivity|].
    cbn [positionsCol with_openPosition print with_store].
    rewrite list_lookup_insert_eq by (eapply lookup_lt_Some; exact Hi).
    split; [reflexivity|]. split; [reflexivity|]. split; [reflexivity|].
    cbn. f_equal. exact Hpnl.
  - intros -> -> -> ->. reflexivity.
Qed.

(** C7. Without a cached open position [closeTrade] returns at once: it issues
    no store operation and the state, with the store and its writes, is left
    as it was, whatever the price and the moving averages. *)
Theorem closeTrade_without_position (w : World) (px emaFast emaSlow : value)
    (now : Date) :
  openPosition w = None ->
  closeTrade px emaFast emaSlow now w = (w, returned)
  /\ positionsCol (closeTrade px emaFast emaSlow now w).1 = positionsCol w
  /\ writes (closeTrade px emaFast emaSlow now w).1 = writes w.
Proof. intros Ho. unfold closeTrade. rewrite Ho. auto. Qed.

(** C8, as amended. The close is an update conditional on the record being
    still open.  With a cached open position, every call of [closeTrade] that
    returns has cleared the cache, for either answer of the update; when the
    update matches no open record the store is not written, a warning is
    printed, and nothing is retried.  When [findOneAndUpdate] itself rejects,
    [closeTrade] throws before it clears the cache, and the state is as it
    was. *)
Theorem closeTrade_clears_cache (w : World) (pos : Position)
    (px emaFast emaSlow : value) (now : Date) :
  openPosition w = Some pos ->
  (forall u w1,
      match findOneAndUpdate (_id pos) u w1 with
      | (w2, Some v) =>
          exists i d, _id pos = ObjectId i /\ positionsCol w1 !! i = Some d
            /\ status d = OPEN /\ v = apply_set u d
            /\ positionsCol w2 = <[i := v]> (positionsCol w1)
      | (w2, None) =>
          w2 = w1
          /\ forall i d, _id pos = ObjectId i -> positionsCol w1 !! i = Some d ->
                         status d = CLOSED
      end)
  /\ if DRY_RUN cfg then
       exists w', closeTrade px emaFast emaSlow now w = (w', returned)
                  /\ openPosition w' = None
     else
       exists u,
         closeTrade px emaFast emaSlow now w = (w, await_findOneAndUpdate (_id pos) u)
         /\ forall w1, exists w2,
              closeTrade_resume (_id pos) u updated w1 = Some (w2, returned)
              /\ openPosition w2 = None
              /\ ((findOneAndUpdate (_id pos) u w1).2 = None ->
                  positionsCol w2 = positionsCol w1
                  /\ writes w2 = writes w1
                  /\ console w2 = console w1 ++ [warn_no_open_position])
              /\ forall r res,
                   closeTrade_resume (_id pos) u r w1 = Some res ->
                   (res.2 = returned /\ openPosition res.1 = None)
                   \/ (r = rejected /\ res = (w1, threw)).
Proof.
  intros Ho. split.
  - intros u w1. unfold findOneAndUpdate.
    destruct (_id pos) as [i|]; [|split; [reflexivity|discriminate]].
    destruct (positionsCol w1 !! i) as [d|] eqn:Hi.
    + destruct (status d) eqn:Hd.
      * exists i, d. auto.
      * split; [reflexivity|]. intros ? ? [= <-] Hi'. congruence.
    + split; [reflexivity|]. intros ? ? [= <-] Hi'. congruence.
  - unfold closeTrade. rewrite Ho. destruct (DRY_RUN cfg).
    + eexists. split; reflexivity.
    + eexists. split; [reflexivity|]. intros w1. unfold closeTrade_resume.
      destruct (findOneAndUpdate (_id pos) _ w1) as [w2 [v|]] eqn:Hupd; cbn.
      * eexists. split; [reflexivity|]. split; [reflexivity|].
        split; [discriminate|].
        intros r res Hr. destruct r; try discriminate; injection Hr as <-; auto.
      * eexists. split; [reflexivity|]. split; [reflexivity|]. split.
        -- intros _. unfold findOneAndUpdate in Hupd.
           repeat case_match; simplify_eq; auto.
        -- intros r res Hr. destruct r; try discriminate; injection Hr as <-; auto.
Qed.

(** ** The tick *)

Lemma tick_report_cached (locals : Snapshot) (w : World) :
  cached (tick_report locals w) = cached w.
Proof. unfold tick_report. destruct (_ || _); reflexivity. Qed.

Lemma trade_cached (locals : Snapshot) (now : Date) (w : World) :
  cached (trade locals now w).1 = cached w.
Proof.
  unfold trade, openTrade, closeTrade, await_trade.
  destruct (openPosition w) as [pos|] eqn:Ho; cbn; rewrite ?Ho;
    repeat (case_match; cbn; rewrite ?tick_report_cached); reflexivity.
Qed.

Lemma resume_cached (f : Frame) (r : Response) (now : Date) (w : World)
    (res : World * option Frame) :
  f <> tick_at_fetchCloses -> resume f r now w = Some res -> cached res.1 = cached w.
Proof.
  intros Hf Hres. destruct f as [|base locals|id u locals|thr locals]; [done|..];
    unfold resume in Hres.
  - destruct r; try discriminate; cbn in Hres; injection Hres as <-; reflexivity.
  - destruct (findOneAndUpdate id u w) as [w2 res2] eqn:Hupd.
    assert (cached w2 = cached w) as Hc.
    { unfold findOneAndUpdate in Hupd. repeat case_match; simplify_eq; reflexivity. }
    unfold closeTrade_resume in Hres. rewrite Hupd in Hres.
    destruct r; try discriminate; cbn in Hres; injection Hres as <-;
      [destruct res2; exact Hc|reflexivity].
  - destruct r; try discriminate. injection Hres as <-.
    destruct thr; [reflexivity|apply tick_report_cached].
Qed.

(** C9. A fetched series shorter than [max(EMA_ENTRY_SLOW, EMA_EXIT_SLOW)]
    ends the tick with a warning: the cached position, the store, the
    snapshot and the recorded calls are as before and the guard is released.
    A series of exactly that length is accepted: the signals are evaluated
    on it, the snapshot is assigned and the entry and exit logic runs. *)
Theorem tick_window_boundary (w : World) (closes : list float) (now : Date) :
  let need := Nat.max (EMA_ENTRY_SLOW cfg) (EMA_EXIT_SLOW cfg) in
  (length closes < need ->
   exists w',
     tick_resume_fetch (fetched closes) now w = Some (w', None)
     /\ console w' = console w ++ [warn_not_enough_candles]
     /\ openPosition w' = openPosition w
     /\ positionsCol w' = positionsCol w
     /\ writes w' = writes w
     /\ calls w' = calls w
     /\ cached w' = cached w
     /\ isTickRunning w' = false)
  /\ (length closes = need ->
      let locals := evaluate closes now in
      tick_resume_fetch (fetched closes) now w
      = Some (trade locals now (with_cached locals w))
      /\ cached (trade locals now (with_cached locals w)).1 = locals
      /\ entrySignal locals
         = detectCross (JS.at_ (EMA_calculate (EMA_ENTRY_FAST cfg) closes) (-2))
                       (JS.at_ (EMA_calculate (EMA_ENTRY_SLOW cfg) closes) (-2))
                       (JS.at_ (EMA_calculate (EMA_ENTRY_FAST cfg) closes) (-1))
                       (JS.at_ (EMA_calculate (EMA_ENTRY_SLOW cfg) closes) (-1))
      /\ exitSignal locals
         = detectCross (JS.at_ (EMA_calculate (EMA_EXIT_FAST cfg) closes) (-2))
                       (JS.at_ (EMA_calculate (EMA_EXIT_SLOW cfg) closes) (-2))
                       (JS.at_ (EMA_calculate (EMA_EXIT_FAST cfg) closes) (-1))
                       (JS.at_ (EMA_calculate (EMA_EXIT_SLOW cfg) closes) (-1))).
Proof.
  cbv zeta. split; intros Hlen; unfold tick_resume_fetch.
  - destruct (Nat.ltb_spec (length closes)
                (Nat.max (EMA_ENTRY_SLOW cfg) (EMA_EXIT_SLOW cfg))); [|lia].
    eexists. split; [reflexivity|]. cbn. auto 10.
  - destruct (Nat.ltb_spec (length closes)
                (Nat.max (EMA_ENTRY_SLOW cfg) (EMA_EXIT_SLOW cfg))); [lia|].
    split; [reflexivity|]. split; [apply trade_cached|]. split; reflexivity.
Qed.

(** C4, as amended. An invocation of [tick] that takes the guard and whose
    fetch answers with at least [max(EMA_ENTRY_SLOW, EMA_EXIT_SLOW)] prices
    assigns the snapshot: the last price, the last value of each of the four
    moving averages, both signals and the time of the tick, whatever the
    entry and exit logic then does; and the rest of the invocation, with the
    answers of the store, leaves the snapshot as assigned.  An invocation that
    finds the guard held, one whose fetch is rejected and one whose window is
    too short leave the snapshot as it was. *)
Theorem tick_refreshes_snapshot (w : World) (closes : list float) (now : Date) :
  let need := Nat.max (EMA_ENTRY_SLOW cfg) (EMA_EXIT_SLOW cfg) in
  (isTickRunning w = false ->
   need <= length closes ->
   exists s',
     run {| world := w; suspended := [] |} [Invoke; Resume 0 (fetched closes) now]
     = Some s'
     /\ cached (world s') = evaluate closes now
     /\ price (cached (world s')) = JS.at_ closes (-1)
     /\ emaEntryFast (cached (world s'))
        = JS.at_ (EMA_calculate (EMA_ENTRY_FAST cfg) closes) (-1)
     /\ emaEntrySlow (cached (world s'))
        = JS.at_ (EMA_calculate (EMA_ENTRY_SLOW cfg) closes) (-1)
     /\ emaExitFast (cached (world s'))
        = JS.at_ (EMA_calculate (EMA_EXIT_FAST cfg) closes) (-1)
     /\ emaExitSlow (cached (world s'))
        = JS.at_ (EMA_calculate (EMA_EXIT_SLOW cfg) closes) (-1)
     /\ entrySignal (cached (world s')) = entrySignal (evaluate closes now)
     /\ exitSignal (cached (world s')) = exitSignal (evaluate closes now)
     /\ lastTickAt (cached (world s')) = Some now)
  /\ (forall f r now' w1 res,
         f <> tick_at_fetchCloses -> resume f r now' w1 = Some res ->
         cached res.1 = cached w1)
  /\ (isTickRunning w = true -> tick w = (w, None))
  /\ (tick_resume_fetch rejected now w = Some (tick_catch w, None)
      /\ cached (tick_catch w) = cached w)
  /\ (length closes < need ->
      exists w', tick_resume_fetch (fetched closes) now w = Some (w', None)
                 /\ cached w' = cached w).
Proof.
  cbv zeta. split; [|split; [|split; [|split]]].
  - intros Hg Hlen.
    cbn -[Nat.ltb Nat.max]. unfold tick. rewrite Hg.
    cbn -[Nat.ltb Nat.max]. unfold tick_resume_fetch.
    destruct (Nat.ltb_spec (length closes)
                (Nat.max (EMA_ENTRY_SLOW cfg) (EMA_EXIT_SLOW cfg))); [lia|].
    cbn. destruct (trade _ _ _) as [w' f'] eqn:Htr. cbn.
    eexists. split; [reflexivity|]. cbn.
    assert (cached w' = evaluate closes now) as ->.
    { change w' with (w', f').1. rewrite <- Htr. apply trade_cached. }
    repeat split; reflexivity.
  - intros; eapply resume_cached; eauto.
  - intros Hg. unfold tick. rewrite Hg. reflexivity.
  - split; reflexivity.
  - intros Hlen. unfold tick_resume_fetch.
    destruct (Nat.ltb_spec (length closes)
                (Nat.max (EMA_ENTRY_SLOW cfg) (EMA_EXIT_SLOW cfg))); [|lia].
    eexists. split; reflexivity.
Qed.

Lemma tick_resume_fetch_enough (w : World) (closes : list float) (now : Date) :
  Nat.max (EMA_ENTRY_SLOW cfg) (EMA_EXIT_SLOW cfg) <= length closes ->
  tick_resume_fetch (fetched closes) now w
  = Some (trade (evaluate closes now) now (with_cached (evaluate closes now) w)).
Proof.
  intros Hlen. unfold tick_resume_fetch.
  destruct (Nat.ltb_spec (length closes)
              (Nat.max (EMA_ENTRY_SLOW cfg) (EMA_EXIT_SLOW cfg))); [lia|reflexivity].
Qed.

Lemma trade_decision (locals : Snapshot) (now : Date) (w : World) :
  trade locals now w
  = perform (spec_decision (openPosition w) (entrySignal locals) (exitSignal locals))
      locals now w.
Proof.
  unfold trade, spec_decision, perform.
  destruct (openPosition w) as [pos|].
  - destruct (exitSignal locals), (positionType (fields pos)); reflexivity.
  - destruct (entrySignal locals); reflexivity.
Qed.

(** C3. On a tick that evaluates the signals, the entry and exit logic does
    what the decision rule says.  Without a cached position a GOLDEN entry
    signal opens a LONG, a DEATH entry signal opens a SHORT and any other
    leaves the positions alone; with a cached position a LONG is closed only
    on a DEATH exit signal and a SHORT only on a GOLDEN exit signal, anything
    else leaves the positions alone, and the entry signal plays no part. *)
Theorem tick_follows_decision (w : World) (closes : list float) (now : Date) :
  Nat.max (EMA_ENTRY_SLOW cfg) (EMA_EXIT_SLOW cfg) <= length closes ->
  let locals := evaluate closes now in
  let a := spec_decision (openPosition w) (entrySignal locals) (exitSignal locals) in
  let r := perform a locals now (with_cached locals w) in
  tick_resume_fetch (fetched closes) now w = Some r
  /\ calls r.1
     = calls w ++ match a with
                  | act_open _ => [call_openTrade None]
                  | act_close => [call_closeTrade (openPosition w)]
                  | act_none => []
                  end
  /\ (a = act_none ->
      r.2 = None /\ openPosition r.1 = openPosition w
      /\ positionsCol r.1 = positionsCol w /\ writes r.1 = writes w)
  /\ (forall side, a = act_open side ->
      openPosition w = None
      /\ exists base,
        positionType base = side /\ status base = OPEN
        /\ symbol base = SYMBOL cfg /\ qty base = 1%float
        /\ entryPrice base = JS.at_ closes (-1)
        /\ entryEMAfast base = emaEntryFast locals
        /\ entryEMAslow base = emaEntrySlow locals
        /\ if DRY_RUN cfg then
             r.2 = Some (tick_at_trade false locals)
             /\ openPosition r.1 = Some {| _id := dryrun; fields := base |}
           else
             r.2 = Some (openTrade_at_insertOne base locals)
             /\ forall w2, exists w3,
                  openTrade_resume base inserted w2 = Some (w3, returned)
                  /\ positionsCol w3 = positionsCol w2 ++ [base]
                  /\ openPosition w3
                     = Some {| _id := ObjectId (length (positionsCol w2));
                               fields := base |})
  /\ (a = act_close ->
      exists pos, openPosition w = Some pos
        /\ if DRY_RUN cfg then
             r.2 = Some (tick_at_trade false locals) /\ openPosition r.1 = None
           else
             exists u, r.2 = Some (closeTrade_at_findOneAndUpdate (_id pos) u locals)
                       /\ set_exitPrice u = JS.at_ closes (-1))
  /\ (forall e x, spec_decision None e x
                  = match e with
                    | GOLDEN => act_open LONG
                    | DEATH => act_open SHORT
                    | NONE => act_none
                    end)
  /\ (forall p e x, spec_decision (Some p) e x = act_close <->
                    (positionType (fields p) = LONG /\ x = DEATH)
                    \/ (positionType (fields p) = SHORT /\ x = GOLDEN))
  /\ (forall p e x, spec_decision (Some p) e x = act_close \/ spec_decision (Some p) e x = act_none)
  /\ (forall p e e' x, spec_decision (Some p) e x = spec_decision (Some p) e' x).
Proof.
  intros Hlen. cbv zeta.
  set (locals := evaluate closes now).
  set (a := spec_decision (openPosition w) (entrySignal locals) (exitSignal locals)).
  split; [|split; [|split; [|split; [|split]]]].
  - rewrite tick_resume_fetch_enough by exact Hlen. fold locals.
    rewrite trade_decision. reflexivity.
  - subst a. unfold spec_decision, perform, openTrade, closeTrade, await_trade, tick_report.
    destruct (openPosition w) as [pos|] eqn:Ho.
    + destruct (positionType (fields pos)), (exitSignal locals),
        (DRY_RUN cfg) eqn:Hdry;
        cbn; rewrite ?Ho, ?Hdry; try destruct (_ || _);
        cbn; rewrite ?app_nil_r; reflexivity.
    + destruct (entrySignal locals), (DRY_RUN cfg) eqn:Hdry;
        cbn; rewrite ?Ho, ?Hdry; try destruct (_ || _);
        cbn; rewrite ?app_nil_r; reflexivity.
  - intros ->. unfold perform, tick_report. destruct (_ || _); cbn; auto.
  - intros side Ha. rewrite Ha.
    assert (openPosition w = None) as Ho.
    { subst a. unfold spec_decision in Ha. destruct (openPosition w); [|reflexivity].
      repeat case_match; discriminate. }
    split; [exact Ho|]. unfold perform, openTrade, await_trade. cbn.
    exists (base_of side (price locals) (emaEntryFast locals) (emaEntrySlow locals) now).
    repeat (split; [reflexivity|]).
    destruct (DRY_RUN cfg); cbn; [split; reflexivity|].
    split; [reflexivity|]. intros w2. eexists. cbn. repeat split; reflexivity.
  - intros Ha. rewrite Ha.
    destruct (openPosition w) as [pos|] eqn:Ho.
    + exists pos. split; [reflexivity|].
      unfold perform, closeTrade, await_trade. cbn. rewrite Ho.
      destruct (DRY_RUN cfg); cbn; [split; reflexivity|].
      eexists. split; reflexivity.
    + subst a. try rewrite Ho in Ha. cbn in Ha. repeat case_match; discriminate.
  - repeat split.
    + intros H. cbn in H. repeat case_match; try discriminate; auto.
    + intros [[H1 ->]|[H1 ->]]; cbn; rewrite H1; reflexivity.
    + intros p e x. cbn. repeat case_match; auto.
Qed.

Lemma trade_store (locals : Snapshot) (now : Date) (w : World) :
  positionsCol (trade locals now w).1 = positionsCol w
  /\ writes (trade locals now w).1 = writes w.
Proof.
  unfold trade.
  destruct (openPosition w) as [pos|] eqn:Ho.
  - destruct (_ && _); [|destruct (_ && _)];
      unfold closeTrade, await_trade, tick_report; cbn; rewrite ?Ho;
      destruct (DRY_RUN cfg); try destruct (_ || _); cbn; auto.
  - destruct (bool_decide _); [|destruct (bool_decide _)];
      unfold openTrade, await_trade, tick_report; cbn;
      destruct (DRY_RUN cfg); try destruct (_ || _); cbn; auto.
Qed.

Lemma trade_without_entry (locals : Snapshot) (now : Date) (w : World) :
  entrySignal locals = NONE ->
  (forall base l, (trade locals now w).2 <> Some (openTrade_at_insertOne base l))
  /\ (openPosition (trade locals now w).1 = openPosition w
      \/ openPosition (trade locals now w).1 = None)
  /\ (openPosition w = None ->
      (trade locals now w).2 = None /\ calls (trade locals now w).1 = calls w).
Proof.
  intros Hsig. unfold trade.
  destruct (openPosition w) as [pos|] eqn:Ho.
  - destruct (_ && _); [|destruct (_ && _)];
      unfold closeTrade, await_trade, tick_report; cbn; rewrite ?Ho;
      destruct (DRY_RUN cfg); try destruct (_ || _); cbn; rewrite ?Ho;
      (repeat split; try discriminate; auto).
  - rewrite Hsig. cbn. unfold tick_report.
    destruct (_ || _); cbn; rewrite ?Ho; (repeat split; try discriminate; auto).
Qed.

(** ** The minimal window *)

Lemma ltb_nan_r (x : float) : (x <? nan)%float = false.
Proof.
  rewrite ltb_spec. change (Prim2SF nan) with S754_nan.
  unfold SFltb. destruct (Prim2SF x); reflexivity.
Qed.

Lemma ltb_nan_l (x : float) : (nan <? x)%float = false.
Proof. rewrite ltb_spec. change (Prim2SF nan) with S754_nan. reflexivity. Qed.

Lemma detectCross_prevSlow_undefined (prevFast fast slow : value) :
  detectCross prevFast undefined fast slow = NONE.
Proof.
  unfold detectCross, JS.lt, JS.gt. cbn [JS.ToNumber].
  now rewrite ltb_nan_r, ltb_nan_l.
Qed.

Lemma detectCross_prevFast_undefined (prevSlow fast slow : value) :
  detectCross undefined prevSlow fast slow = NONE.
Proof.
  unfold detectCross, JS.lt, JS.gt. cbn [JS.ToNumber].
  now rewrite ltb_nan_r, ltb_nan_l.
Qed.

Lemma at_prev_singleton (arr : list float) :
  length arr = 1 -> JS.at_ arr (-2) = undefined.
Proof. intros H. unfold JS.at_. rewrite H. reflexivity. Qed.

Lemma EMA_model_length (period : nat) (values : list float) :
  length (EMA_model period values) = length values + 1 - period.
Proof.
  assert (Hfrom : forall k prev xs, length (ema_from k prev xs) = length xs).
  { intros k prev xs. revert prev.
    induction xs as [|x xs IH]; intros prev; cbn; [reflexivity|]. now rewrite IH. }
  unfold EMA_model. destruct (Nat.ltb_spec (length values) period); cbn [length].
  - lia.
  - rewrite Hfrom, length_drop. lia.
Qed.

Section EMAContract.

(** Modelled from the spec: the contract of the moving-average engine
    ([EMA.calculate] is an external collaborator): the series of a period
    over a window has [max(0, len(series) - period + 1)] elements. *)
Hypothesis EMA_length :
  forall period values,
    length (EMA_calculate period values) = length values + 1 - period.

(** C10. On a window as long as a pair's slow period, the slow series of the
    pair has one element, its second-to-last element is [undefined],
    [detectCross] answers NONE for an [undefined] previous value, and so the
    signal of the pair is NONE.  When the entry slow period is the largest
    period, a window of exactly that length is accepted and the tick issues
    no [openTrade]: the store is not written and the cache gains no
    position. *)
Theorem minimal_window_no_signal (w : World) (closes : list float) (now : Date) :
  (forall prevFast fast slow, detectCross prevFast undefined fast slow = NONE)
  /\ (forall prevSlow fast slow, detectCross undefined prevSlow fast slow = NONE)
  /\ (length closes = EMA_ENTRY_SLOW cfg ->
      length (EMA_calculate (EMA_ENTRY_SLOW cfg) closes) = 1
      /\ JS.at_ (EMA_calculate (EMA_ENTRY_SLOW cfg) closes) (-2) = undefined
      /\ entrySignal (evaluate closes now) = NONE)
  /\ (length closes = EMA_EXIT_SLOW cfg ->
      length (EMA_calculate (EMA_EXIT_SLOW cfg) closes) = 1
      /\ JS.at_ (EMA_calculate (EMA_EXIT_SLOW cfg) closes) (-2) = undefined
      /\ exitSignal (evaluate closes now) = NONE)
  /\ (length closes = EMA_ENTRY_SLOW cfg ->
      EMA_EXIT_SLOW cfg <= EMA_ENTRY_SLOW cfg ->
      exists w' f,
        tick_resume_fetch (fetched closes) now w = Some (w', f)
        /\ positionsCol w' = positionsCol w
        /\ writes w' = writes w
        /\ (forall base locals, f <> Some (openTrade_at_insertOne base locals))
        /\ (openPosition w' = openPosition w \/ openPosition w' = None)
        /\ (openPosition w = None -> f = None /\ calls w' = calls w)).
Proof.
  assert (Hone : forall p, length closes = p ->
                           length (EMA_calculate p closes) = 1).
  { intros p Hp. rewrite EMA_length. lia. }
  split; [exact detectCross_prevSlow_undefined|].
  split; [exact detectCross_prevFast_undefined|].
  split; [|split].
  - intros Hlen. pose proof (Hone _ Hlen) as H1. split; [exact H1|].
    split; [exact (at_prev_singleton _ H1)|].
    unfold evaluate. cbn [entrySignal]. rewrite (at_prev_singleton _ H1).
    apply detectCross_prevSlow_undefined.
  - intros Hlen. pose proof (Hone _ Hlen) as H1. split; [exact H1|].
    split; [exact (at_prev_singleton _ H1)|].
    unfold evaluate. cbn [exitSignal]. rewrite (at_prev_singleton _ H1).
    apply detectCross_prevSlow_undefined.
  - intros Hlen Hmax.
    assert (Hsig : entrySignal (evaluate closes now) = NONE).
    { unfold evaluate. cbn [entrySignal].
      rewrite (at_prev_singleton _ (Hone _ Hlen)).
      apply detectCross_prevSlow_undefined. }
    rewrite tick_resume_fetch_enough by lia.
    set (locals := evaluate closes now) in *.
    destruct (trade_store locals now (with_cached locals w)) as [Hcol Hwr].
    destruct (trade_without_entry locals now (with_cached locals w) Hsig)
      as (Hf & Hpos & Hnone).
    exists (trade locals now (with_cached locals w)).1,
           (trade locals now (with_cached locals w)).2.
    split; [now destruct (trade locals now (with_cached locals w))|]. auto.
Qed.

End EMAContract.

(** ** Overlapping invocations *)

Lemma tick_report_fields (locals : Snapshot) (w : World) :
  isTickRunning (tick_report locals w) = false
  /\ openPosition (tick_report locals w) = openPosition w
  /\ positionsCol (tick_report locals w) = positionsCol w
  /\ writes (tick_report locals w) = writes w
  /\ calls (tick_report locals w) = calls w.
Proof. unfold tick_report. destruct (_ || _); cbn; auto. Qed.

Lemma step_invoke_running (s : System) :
  isTickRunning (world s) = true -> step s Invoke = Some s.
Proof.
  intros Hg. destruct s as [w fr]. cbn in *. unfold tick. rewrite Hg.
  cbn. now rewrite app_nil_r.
Qed.

Lemma await_trade_suspends (locals : Snapshot) (r : World * Outcome) :
  (await_trade locals r).2 <> None.
Proof. unfold await_trade. destruct r.2; discriminate. Qed.

Lemma trade_exit (locals : Snapshot) (now : Date) (w : World) :
  (trade locals now w).2 = None -> isTickRunning (trade locals now w).1 = false.
Proof.
  unfold trade.
  destruct (openPosition w) as [pos|].
  - destruct (_ && _); [|destruct (_ && _)]; intros H;
      try (now apply await_trade_suspends in H); apply tick_report_fields.
  - destruct (bool_decide _); [|destruct (bool_decide _)]; intros H;
      try (now apply await_trade_suspends in H); apply tick_report_fields.
Qed.

Lemma resume_exit_releases (f : Frame) (r : Response) (now : Date) (w w' : World) :
  resume f r now w = Some (w', None) -> isTickRunning w' = false.
Proof.
  intros Hres. destruct f as [|base locals|id u locals|thr locals];
    unfold resume in Hres.
  - unfold tick_resume_fetch in Hres. destruct r; try discriminate.
    + destruct (_ <? _)%nat; injection Hres as Hres; [now subst|].
      pose proof (trade_exit (evaluate closes now) now
                    (with_cached (evaluate closes now) w)) as H.
      rewrite Hres in H. now apply H.
    + injection Hres as <-. reflexivity.
  - destruct (openTrade_resume base r w) as [x|]; [|discriminate].
    injection Hres as Hres.
    pose proof (await_trade_suspends locals x) as H. rewrite Hres in H. done.
  - destruct (closeTrade_resume id u r w) as [x|]; [|discriminate].
    injection Hres as Hres.
    pose proof (await_trade_suspends locals x) as H. rewrite Hres in H. done.
  - destruct r; try discriminate. injection Hres as <-.
    destruct thr; [reflexivity|apply tick_report_fields].
Qed.

Lemma step_invoke_idle (w : World) :
  isTickRunning w = false ->
  step {| world := w; suspended := [] |} Invoke
  = Some {| world := with_isTickRunning true w; suspended := [tick_at_fetchCloses] |}.
Proof. intros Hg. cbn. unfold tick. rewrite Hg. reflexivity. Qed.

Lemma step_resume_single (f : Frame) (r : Response) (now : Date) (w w' : World)
    (f' : option Frame) :
  resume f r now w = Some (w', f') ->
  step {| world := w; suspended := [f] |} (Resume 0 r now)
  = Some {| world := w'; suspended := option_list f' |}.
Proof.
  intros Hres. unfold step. cbn [suspended world lookup list_lookup mbind option_bind].
  rewrite Hres. cbn. destruct f'; reflexivity.
Qed.

(** One tick on a GOLDEN entry signal, with persistence and no cached
    position: the three suspensions of the invocation. *)
Lemma golden_tick (w : World) (closes : list float) (now : Date) :
  DRY_RUN cfg = false ->
  openPosition w = None ->
  Nat.max (EMA_ENTRY_SLOW cfg) (EMA_EXIT_SLOW cfg) <= length closes ->
  entrySignal (evaluate closes now) = GOLDEN ->
  let locals := evaluate closes now in
  let base := base_of LONG (price locals) (emaEntryFast locals) (emaEntrySlow locals) now in
  let w2 := record_call (call_openTrade None) (with_cached locals w) in
  let w3 :=
    print (log_open false LONG (price locals) (ObjectId (length (positionsCol w))))
      (with_openPosition
         (Some {| _id := ObjectId (length (positionsCol w)); fields := base |})
         (with_store (positionsCol w ++ [base])
            (insert_one (length (positionsCol w))) w2)) in
  resume tick_at_fetchCloses (fetched closes) now w
  = Some (w2, Some (openTrade_at_insertOne base locals))
  /\ (forall t, resume (openTrade_at_insertOne base locals) inserted t w2
                = Some (w3, Some (tick_at_trade false locals)))
  /\ (forall t, resume (tick_at_trade false locals) settled t w3
                = Some (tick_report locals w3, None)).
Proof.
  intros Hdry Ho Hlen Hsig. cbv zeta. split; [|split].
  - unfold resume. rewrite tick_resume_fetch_enough by exact Hlen.
    unfold trade. cbn [openPosition with_cached]. rewrite Ho, Hsig. cbn.
    unfold openTrade. rewrite Hdry. reflexivity.
  - intros t. reflexivity.
  - intros t. reflexivity.
Qed.

(** C5. An invocation of [tick] that finds the guard held returns at once and
    changes nothing: no write, no change of the position or of the snapshot,
    no new suspension.  Every resumption that ends an invocation releases the
    guard, a rejected fetch or store operation included.  With persistence,
    no cached position and a GOLDEN entry signal, a second invocation that
    arrives while the first is suspended, at any of its three suspensions,
    is dropped, and the two invocations leave exactly one write in the
    store. *)
Theorem overlapping_ticks (col : list Doc) (closes : list float) (now t1 t2 : Date) :
  (forall s, isTickRunning (world s) = true -> step s Invoke = Some s)
  /\ (forall f r t w w', resume f r t w = Some (w', None) -> isTickRunning w' = false)
  /\ (forall t w, resume tick_at_fetchCloses rejected t w = Some (tick_catch w, None))
  /\ (forall thr locals t w,
         exists w', resume (tick_at_trade thr locals) settled t w = Some (w', None))
  /\ (DRY_RUN cfg = false ->
      openPosition (world (bootstrap col)) = None ->
      Nat.max (EMA_ENTRY_SLOW cfg) (EMA_EXIT_SLOW cfg) <= length closes ->
      entrySignal (evaluate closes now) = GOLDEN ->
      let fetch := Resume 0 (fetched closes) now in
      let ack := Resume 0 inserted t1 in
      let back := Resume 0 settled t2 in
      let locals := evaluate closes now in
      let base :=
        base_of LONG (price locals) (emaEntryFast locals) (emaEntrySlow locals) now in
      forall evs,
        evs ∈ [ [Invoke; Invoke; fetch; ack; back];
                [Invoke; fetch; Invoke; ack; back];
                [Invoke; fetch; ack; Invoke; back] ] ->
        exists s',
          run (bootstrap col) evs = Some s'
          /\ suspended s' = []
          /\ isTickRunning (world s') = false
          /\ writes (world s') = [insert_one (length col)]
          /\ positionsCol (world s') = col ++ [base]
          /\ openPosition (world s')
             = Some {| _id := ObjectId (length col); fields := base |}
          /\ calls (world s') = [call_openTrade None]).
Proof.
  split; [exact step_invoke_running|].
  split; [exact resume_exit_releases|].
  split; [reflexivity|].
  split; [intros thr locals t w; eexists; reflexivity|].
  intros Hdry Ho Hlen Hsig. cbv zeta. intros evs Hevs.
  unfold bootstrap in *. cbn [world] in Ho.
  assert (Hw0 : isTickRunning (restoreOpenPosition (initial col)) = false
                /\ positionsCol (restoreOpenPosition (initial col)) = col
                /\ writes (restoreOpenPosition (initial col)) = []
                /\ calls (restoreOpenPosition (initial col)) = []).
  { unfold restoreOpenPosition. rewrite Hdry. cbn. auto. }
  destruct Hw0 as (Hg0 & Hcol0 & Hwr0 & Hcalls0).
  set (w0 := restoreOpenPosition (initial col)) in *. clearbody w0.
  pose proof (step_invoke_idle w0 Hg0) as S1.
  assert (Ho1 : openPosition (with_isTickRunning true w0) = None) by exact Ho.
  destruct (golden_tick (with_isTickRunning true w0) closes now Hdry Ho1 Hlen Hsig)
    as (R2 & R3 & R4).
  pose proof (step_resume_single _ _ _ _ _ _ R2) as S2.
  pose proof (step_resume_single _ _ _ _ _ _ (R3 t1)) as S3.
  pose proof (step_resume_single _ _ _ _ _ _ (R4 t2)) as S4.
  cbv [option_list option_rect] in S2, S3, S4.
  assert (Hfinal :
    forall s', s' = {| world := tick_report (evaluate closes now)
                        (print (log_open false LONG (price (evaluate closes now))
                          (ObjectId (length (positionsCol (with_isTickRunning true w0)))))
                        (with_openPosition
                          (Some {| _id := ObjectId (length (positionsCol (with_isTickRunning true w0)));
                                   fields := base_of LONG (price (evaluate closes now))
                                     (emaEntryFast (evaluate closes now))
                                     (emaEntrySlow (evaluate closes now)) now |})
                          (with_store (positionsCol (with_isTickRunning true w0) ++
                                        [base_of LONG (price (evaluate closes now))
                                           (emaEntryFast (evaluate closes now))
                                           (emaEntrySlow (evaluate closes now)) now])
                             (insert_one (length (positionsCol (with_isTickRunning true w0))))
                             (record_call (call_openTrade None)
                                (with_cached (evaluate closes now)
                                   (with_isTickRunning true w0))))));
                       suspended := [] |} ->
      suspended s' = []
      /\ isTickRunning (world s') = false
      /\ writes (world s') = [insert_one (length col)]
      /\ positionsCol (world s') = col ++ [base_of LONG (price (evaluate closes now))
                                     (emaEntryFast (evaluate closes now))
                                     (emaEntrySlow (evaluate closes now)) now]
      /\ openPosition (world s')
         = Some {| _id := ObjectId (length col);
                   fields := base_of LONG (price (evaluate closes now))
                                     (emaEntryFast (evaluate closes now))
                                     (emaEntrySlow (evaluate closes now)) now |}
      /\ calls (world s') = [call_openTrade None]).
  { intros s' ->. cbn [suspended world].
    destruct (tick_report_fields (evaluate closes now)
      (print (log_open false LONG (price (evaluate closes now))
                          (ObjectId (length (positionsCol (with_isTickRunning true w0)))))
                        (with_openPosition
                          (Some {| _id := ObjectId (length (positionsCol (with_isTickRunning true w0)));
                                   fields := base_of LONG (price (evaluate closes now))
                                     (emaEntryFast (evaluate closes now))
                                     (emaEntrySlow (evaluate closes now)) now |})
                          (with_store (positionsCol (with_isTickRunning true w0) ++
                                        [base_of LONG (price (evaluate closes now))
                                           (emaEntryFast (evaluate closes now))
                                           (emaEntrySlow (evaluate closes now)) now])
                             (insert_one (length (positionsCol (with_isTickRunning true w0))))
                             (record_call (call_openTrade None)
                                (with_cached (evaluate closes now)
                                   (with_isTickRunning true w0)))))))
      as (-> & -> & -> & -> & ->).
    cbn. rewrite Hcol0, Hwr0, Hcalls0. auto 10. }
  eexists. split; [|apply Hfinal; reflexivity].
  repeat (apply elem_of_cons in Hevs as [->|Hevs]); [| | |inversion Hevs].
  - cbn [run]. rewrite S1. cbn [mbind option_bind].
    rewrite step_invoke_running by reflexivity. cbn [mbind option_bind].
    rewrite S2. cbn [mbind option_bind]. rewrite S3. cbn [mbind option_bind].
    rewrite S4. reflexivity.
  - cbn [run]. rewrite S1. cbn [mbind option_bind].
    rewrite S2. cbn [mbind option_bind].
    rewrite step_invoke_running by reflexivity. cbn [mbind option_bind].
    rewrite S3. cbn [mbind option_bind]. rewrite S4. reflexivity.
  - cbn [run]. rewrite S1. cbn [mbind option_bind].
    rewrite S2. cbn [mbind option_bind]. rewrite S3. cbn [mbind option_bind].
    rewrite step_invoke_running by reflexivity. cbn [mbind option_bind].
    rewrite S4. reflexivity.
Qed.

(** * The rest of the service *)

(** ** Definitions *)

(** The signal with the two averages exchanged. *)
Definition opposite (s : Signal) : Signal :=
  match s with
  | GOLDEN => DEATH
  | DEATH => GOLDEN
  | NONE => NONE
  end.


(** The staleness test of [/api/price] (lines 295-297):
    [!cached.lastTickAt || Date.now() - lastTickAt.getTime() > 70_000]. *)
Definition stale (c : Snapshot) (now : Date) : bool :=
  match lastTickAt c with
  | None => true
  | Some t => (70000 <? Z.of_nat now - Z.of_nat t)%Z
  end.

(** [/api/price], lines 294-298, up to the [await]: a stale snapshot makes the
    handler call [tick()]. *)
Definition api_price (now : Date) (s : System) : option System :=
  if stale (cached (world s)) now then step s Invoke else Some s.

(** [bootstrap()], lines 360-361: the delay of the first tick. *)
Definition msToMinute (now : Date) : Z := (60000 - Z.of_nat now mod 60000)%Z.

(** [sort({ createdAt: -1 })]: rows by decreasing creation time, equally
    recent rows in the order of the collection. *)
Fixpoint insert_row (r : nat * Doc) (rows : list (nat * Doc)) : list (nat * Doc) :=
  match rows with
  | [] => [r]
  | x :: rows' =>
      if (createdAt x.2 <? createdAt r.2)%nat then r :: x :: rows'
      else x :: insert_row r rows'
  end.

Definition sort_newest_first (rows : list (nat * Doc)) : list (nat * Doc) :=
  foldr insert_row [] rows.

(** A row of the collection as the driver returns it: the document with its
    [_id]. *)
Definition row_position (r : nat * Doc) : Position :=
  {| _id := ObjectId r.1; fields := r.2 |}.

(** [/api/positions/open], lines 334-341: the body of the answer. *)
Definition api_positions_open (w : World) : list Position :=
  if DRY_RUN cfg then option_list (openPosition w)
  else row_position <$> sort_newest_first (find (SYMBOL cfg) (positionsCol w)).

(** How far a suspended invocation is from its end: the number of [await]s it
    can still meet. *)
Definition awaits_left (f : Frame) : nat :=
  match f with
  | tick_at_fetchCloses => 3
  | openTrade_at_insertOne _ _ => 2
  | closeTrade_at_findOneAndUpdate _ _ _ => 2
  | tick_at_trade _ _ => 1
  end.


(** ** The signal detector *)

Lemma detectCross_exchange (prevFast prevSlow fast slow : value) :
  detectCross prevSlow prevFast slow fast
  = opposite (detectCross prevFast prevSlow fast slow).
Proof.
  unfold detectCross, JS.lt, JS.gt.
  destruct (JS.ToNumber prevFast <? JS.ToNumber prevSlow)%float eqn:E1,
    (JS.ToNumber prevSlow <? JS.ToNumber prevFast)%float eqn:E2;
    try (apply ltb_asym in E1; congruence);
    destruct (JS.ToNumber slow <? JS.ToNumber fast)%float eqn:E3,
      (JS.ToNumber fast <? JS.ToNumber slow)%float eqn:E4;
    try (apply ltb_asym in E3; congruence); reflexivity.
Qed.

Lemma ToNumber_nan_lt (a b : value) :
  is_nan (JS.ToNumber a) = true \/ is_nan (JS.ToNumber b) = true ->
  JS.lt a b = false.
Proof.
  unfold JS.lt, is_nan. rewrite !FloatAxioms.eqb_spec, ltb_spec.
  unfold SFeqb, SFltb.
  destruct (Prim2SF (JS.ToNumber a)) as [[]|[]| |[] ? ?] eqn:Ea,
    (Prim2SF (JS.ToNumber b)) as [[]|[]| |[] ? ?] eqn:Eb; cbn;
    try reflexivity; intros [H|H]; try discriminate H;
    rewrite ?Z.compare_refl, ?Pos.compare_cont_refl in H; cbn in H;
    discriminate H.
Qed.

(** X2. A signal needs four comparable numbers: as soon as one argument of
    [detectCross] is [undefined] or NaN, the answer is NONE. *)
Theorem detectCross_nan (prevFast prevSlow fast slow : value) :
  is_nan (JS.ToNumber prevFast) = true \/ is_nan (JS.ToNumber prevSlow) = true
  \/ is_nan (JS.ToNumber fast) = true \/ is_nan (JS.ToNumber slow) = true ->
  detectCross prevFast prevSlow fast slow = NONE.
Proof.
  intros H. unfold detectCross, JS.gt.
  fold (JS.lt slow fast). fold (JS.lt prevSlow prevFast).
  destruct H as [H|[H|[H|H]]].
  - rewrite (ToNumber_nan_lt prevFast prevSlow), (ToNumber_nan_lt prevSlow prevFast);
      auto.
  - rewrite (ToNumber_nan_lt prevFast prevSlow), (ToNumber_nan_lt prevSlow prevFast);
      auto.
  - rewrite (ToNumber_nan_lt slow fast), (ToNumber_nan_lt fast slow); auto.
    now rewrite !andb_false_r.
  - rewrite (ToNumber_nan_lt slow fast), (ToNumber_nan_lt fast slow); auto.
    now rewrite !andb_false_r.
Qed.

(** X1. Exchanging the roles of the fast and the slow average exchanges GOLDEN
    and DEATH and keeps NONE, for all values. *)
Theorem detectCross_opposite (prevFast prevSlow fast slow : value) :
  detectCross prevSlow prevFast slow fast
  = opposite (detectCross prevFast prevSlow fast slow)
  /\ (detectCross prevFast prevSlow fast slow = GOLDEN
      <-> detectCross prevSlow prevFast slow fast = DEATH).
Proof.
  split; [apply detectCross_exchange|].
  rewrite (detectCross_exchange prevFast prevSlow fast slow).
  destruct (detectCross prevFast prevSlow fast slow); cbn; intuition congruence.
Qed.

(** X3. A crossing is reported once: when the pair [(fast, slow)] of one
    evaluation is the previous pair of the next, the two evaluations cannot
    report the same crossing. *)
Theorem detectCross_no_repeat (prevFast prevSlow fast slow nextFast nextSlow : value) :
  detectCross prevFast prevSlow fast slow <> NONE ->
  detectCross fast slow nextFast nextSlow <> detectCross prevFast prevSlow fast slow.
Proof.
  unfold detectCross, JS.lt, JS.gt.
  destruct (JS.ToNumber prevFast <? JS.ToNumber prevSlow)%float,
    (JS.ToNumber prevSlow <? JS.ToNumber prevFast)%float;
    destruct (JS.ToNumber slow <? JS.ToNumber fast)%float eqn:E3,
      (JS.ToNumber fast <? JS.ToNumber slow)%float eqn:E4;
    try (apply ltb_asym in E3; congruence); cbn; try congruence; intros _;
    destruct (JS.ToNumber nextSlow <? JS.ToNumber nextFast)%float,
      (JS.ToNumber nextFast <? JS.ToNumber nextSlow)%float; cbn; congruence.
Qed.

(** ** The schedule and the staleness of the snapshot *)

(** X4. The first tick is set for the next start of a minute: the delay is
    positive, at most one minute, and ends on a multiple of 60000 ms; when the
    process starts exactly on a minute it waits a whole minute. *)
Theorem msToMinute_aligned (now : Date) :
  (0 < msToMinute now <= 60000)%Z
  /\ ((Z.of_nat now + msToMinute now) mod 60000 = 0)%Z
  /\ ((Z.of_nat now mod 60000 = 0)%Z -> msToMinute now = 60000%Z).
Proof.
  unfold msToMinute.
  pose proof (Z.mod_pos_bound (Z.of_nat now) 60000 ltac:(lia)) as Hb.
  split; [lia|]. split; [|intros ->; reflexivity].
  rewrite (Z.div_mod (Z.of_nat now) 60000) at 1 by lia.
  replace (60000 * (Z.of_nat now / 60000) + Z.of_nat now mod 60000
           + (60000 - Z.of_nat now mod 60000))%Z
    with ((Z.of_nat now / 60000 + 1) * 60000)%Z by lia.
  apply Z.mod_mul. lia.
Qed.

(** ** The history of the collection *)

(** How the collection may differ between two moments: every document is
    still there under its identifier, either as it was or, if it was open,
    closed by the [$set] of [closeTrade]. *)
Definition evolves (col col' : list Doc) : Prop :=
  forall i d, col !! i = Some d ->
    exists d', col' !! i = Some d'
      /\ (d' = d \/ (status d = OPEN /\ exists u, d' = apply_set u d)).

Lemma evolves_refl (col : list Doc) : evolves col col.
Proof. intros i d Hi. exists d. auto. Qed.

Lemma evolves_trans (c1 c2 c3 : list Doc) :
  evolves c1 c2 -> evolves c2 c3 -> evolves c1 c3.
Proof.
  intros H12 H23 i d Hi.
  destruct (H12 i d Hi) as (d2 & Hi2 & Hd2).
  destruct (H23 i d2 Hi2) as (d3 & Hi3 & Hd3).
  exists d3. split; [exact Hi3|].
  destruct Hd2 as [->|(Ho & u & ->)]; [exact Hd3|].
  destruct Hd3 as [->|(Ho3 & _)]; [right; eauto|discriminate Ho3].
Qed.

Lemma findOneAndUpdate_evolves (id : Id) (u : CloseSet) (w : World) :
  evolves (positionsCol w) (positionsCol (findOneAndUpdate id u w).1).
Proof.
  unfold findOneAndUpdate. destruct id as [i|]; [|apply evolves_refl].
  destruct (positionsCol w !! i) as [d|] eqn:Hi; [|apply evolves_refl].
  destruct (status d) eqn:Hd; [|apply evolves_refl].
  cbn. intros j e Hj. destruct (decide (i = j)) as [<-|Hne].
  - exists (apply_set u d). rewrite list_lookup_insert_eq by (eapply lookup_lt_Some; eauto).
    split; [reflexivity|]. right. assert (e = d) as -> by congruence. eauto.
  - exists e. rewrite list_lookup_insert_ne by exact Hne. auto.
Qed.

Lemma resume_evolves (f : Frame) (r : Response) (t : Date) (w : World)
    (res : World * option Frame) :
  resume f r t w = Some res -> evolves (positionsCol w) (positionsCol res.1).
Proof.
  intros Hres. destruct f as [|base locals|id u locals|thr locals];
    unfold resume in Hres.
  - unfold tick_resume_fetch in Hres. destruct r; try discriminate.
    + destruct (_ <? _)%nat; injection Hres as <-; [apply evolves_refl|].
      rewrite (proj1 (trade_store _ _ _)). apply evolves_refl.
    + injection Hres as <-. apply evolves_refl.
  - destruct r; try discriminate; cbn in Hres; injection Hres as <-; cbn;
      [|apply evolves_refl].
    intros i d Hi. exists d. split; [|auto]. now apply lookup_app_l_Some.
  - pose proof (findOneAndUpdate_evolves id u w) as Hev.
    unfold closeTrade_resume in Hres.
    destruct (findOneAndUpdate id u w) as [w2 res2].
    destruct r; try discriminate; cbn in Hres; injection Hres as <-; cbn;
      [|apply evolves_refl].
    destruct res2; exact Hev.
  - destruct r; try discriminate. injection Hres as <-. cbn.
    destruct thr; [apply evolves_refl|].
    rewrite (proj1 (proj2 (proj2 (tick_report_fields _ _)))). apply evolves_refl.
Qed.

Lemma step_evolves (s s' : System) (e : Event) :
  step s e = Some s' -> evolves (positionsCol (world s)) (positionsCol (world s')).
Proof.
  destruct e as [|i r t]; cbn.
  - unfold tick. destruct (isTickRunning (world s)); intros [= <-]; apply evolves_refl.
  - destruct (suspended s !! i) as [f|]; [|discriminate]. cbn.
    destruct (resume f r t (world s)) as [[w' f']|] eqn:Hres; [|discriminate].
    cbn. intros [= <-]. exact (resume_evolves _ _ _ _ _ Hres).
Qed.

(** X5. Positions are never deleted and are closed at most once: over any
    run, from any state, every document of the collection is still stored
    under its identifier, unchanged, or closed by one [$set] if it was open;
    a closed document never changes again and the entry fields of a document
    never change. *)
Theorem history_is_kept (s s' : System) (evs : list Event) :
  run s evs = Some s' ->
  evolves (positionsCol (world s)) (positionsCol (world s'))
  /\ length (positionsCol (world s)) <= length (positionsCol (world s'))
  /\ (forall i d, positionsCol (world s) !! i = Some d ->
        exists d', positionsCol (world s') !! i = Some d'
          /\ (status d = CLOSED -> d' = d)
          /\ symbol d' = symbol d /\ positionType d' = positionType d
          /\ qty d' = qty d /\ entryPrice d' = entryPrice d
          /\ entryTime d' = entryTime d /\ createdAt d' = createdAt d).
Proof.
  intros Hrun.
  assert (Hev : evolves (positionsCol (world s)) (positionsCol (world s'))).
  { revert s Hrun. induction evs as [|e evs IH]; intros s Hrun; cbn in Hrun.
    - injection Hrun as <-. apply evolves_refl.
    - destruct (step s e) as [s1|] eqn:He; [|discriminate]. cbn in Hrun.
      eapply evolves_trans; [exact (step_evolves _ _ _ He)|exact (IH _ Hrun)]. }
  split; [exact Hev|]. split.
  - destruct (positionsCol (world s)) as [|d0 col] eqn:Hcol using rev_ind; [cbn; lia|].
    destruct (Hev (length col) d0) as (d' & Hd' & _).
    { rewrite lookup_app_r by lia. now rewrite Nat.sub_diag. }
    apply lookup_lt_Some in Hd'. rewrite length_app. cbn. lia.
  - intros i d Hi. destruct (Hev i d Hi) as (d' & Hi' & [->|(Ho & u & ->)]).
    + exists d. auto 10.
    + eexists. split; [exact Hi'|]. split; [congruence|]. cbn. auto 10.
Qed.

(** ** The no-persistence mode *)

(** A suspended store operation. *)
Definition store_frame (f : Frame) : bool :=
  match f with
  | openTrade_at_insertOne _ _ | closeTrade_at_findOneAndUpdate _ _ _ => true
  | _ => false
  end.

(** The cached position, if any, carries the identifier ["dryrun"]. *)
Definition dry_cache (o : option Position) : Prop :=
  match o with
  | Some p => _id p = dryrun
  | None => True
  end.

Lemma trade_dry (locals : Snapshot) (now : Date) (w : World) :
  DRY_RUN cfg = true ->
  dry_cache (openPosition w) ->
  dry_cache (openPosition (trade locals now w).1)
  /\ match (trade locals now w).2 with
     | Some f => store_frame f = false
     | None => True
     end.
Proof.
  intros Hdry Hc. unfold trade.
  destruct (openPosition w) as [pos|] eqn:Ho.
  - destruct (_ && _); [|destruct (_ && _)];
      unfold closeTrade, await_trade, tick_report; cbn; rewrite ?Ho, ?Hdry;
      try destruct (_ || _); cbn; rewrite ?Ho; auto.
  - destruct (bool_decide _); [|destruct (bool_decide _)];
      unfold openTrade, await_trade, tick_report; cbn; rewrite ?Hdry;
      try destruct (_ || _); cbn; rewrite ?Ho; cbn; auto.
Qed.

Lemma resume_dry (f : Frame) (r : Response) (t : Date) (w : World)
    (res : World * option Frame) :
  DRY_RUN cfg = true ->
  store_frame f = false ->
  dry_cache (openPosition w) ->
  resume f r t w = Some res ->
  positionsCol res.1 = positionsCol w
  /\ writes res.1 = writes w
  /\ dry_cache (openPosition res.1)
  /\ match res.2 with
     | Some f' => store_frame f' = false
     | None => True
     end.
Proof.
  intros Hdry Hf Hc Hres.
  destruct f as [|base locals|id u locals|thr locals]; try discriminate Hf;
    unfold resume in Hres.
  - unfold tick_resume_fetch in Hres. destruct r; try discriminate.
    + destruct (_ <? _)%nat; injection Hres as <-; [cbn; auto|].
      destruct (trade_store (evaluate closes t) t (with_cached (evaluate closes t) w))
        as [-> ->].
      destruct (trade_dry (evaluate closes t) t (with_cached (evaluate closes t) w)
                  Hdry Hc) as [H1 H2].
      auto.
    + injection Hres as <-. cbn. auto.
  - destruct r; try discriminate. injection Hres as <-. cbn.
    destruct thr; cbn; [auto|].
    destruct (tick_report_fields locals w) as (_ & -> & -> & -> & _). auto.
Qed.

(** X6. With [DRY_RUN] set nothing is ever written: over any run from
    start-up the collection is the one the process found, no write is
    recorded, no store operation is ever suspended, and a cached position
    carries the identifier ["dryrun"]. *)
Theorem dry_run_never_writes (col : list Doc) (evs : list Event) (s : System) :
  DRY_RUN cfg = true ->
  run (bootstrap col) evs = Some s ->
  positionsCol (world s) = col
  /\ writes (world s) = []
  /\ Forall (fun f => store_frame f = false) (suspended s)
  /\ dry_cache (openPosition (world s)).
Proof.
  intros Hdry.
  assert (Hstep : forall s1 s2 e,
             step s1 e = Some s2 ->
             Forall (fun f => store_frame f = false) (suspended s1) ->
             dry_cache (openPosition (world s1)) ->
             positionsCol (world s2) = positionsCol (world s1)
             /\ writes (world s2) = writes (world s1)
             /\ Forall (fun f => store_frame f = false) (suspended s2)
             /\ dry_cache (openPosition (world s2))).
  { intros s1 s2 [|i r t] Hs Hfr Hc; cbn in Hs.
    - unfold tick in Hs. destruct (isTickRunning (world s1));
        injection Hs as <-; cbn; rewrite ?app_nil_r; repeat split; auto.
      apply Forall_app. split; [exact Hfr|]. repeat constructor.
    - destruct (suspended s1 !! i) as [f|] eqn:Hi; [|discriminate]. cbn in Hs.
      destruct (resume f r t (world s1)) as [[w' f']|] eqn:Hres; [|discriminate].
      cbn in Hs. injection Hs as <-. cbn.
      assert (Hf : store_frame f = false).
      { eapply (proj1 (Forall_lookup _ _) Hfr); exact Hi. }
      destruct (resume_dry f r t (world s1) (w', f') Hdry Hf Hc Hres)
        as (H1 & H2 & H3 & H4). cbn in *.
      repeat split; auto. destruct f' as [f'|].
      + apply Forall_insert; assumption.
      + apply Forall_delete. exact Hfr. }
  assert (Hrun : forall evs s1 s2,
             run s1 evs = Some s2 ->
             Forall (fun f => store_frame f = false) (suspended s1) ->
             dry_cache (openPosition (world s1)) ->
             positionsCol (world s2) = positionsCol (world s1)
             /\ writes (world s2) = writes (world s1)
             /\ Forall (fun f => store_frame f = false) (suspended s2)
             /\ dry_cache (openPosition (world s2))).
  { clear evs s. induction evs as [|e evs IH]; intros s1 s2 Hr Hfr Hc; cbn in Hr.
    - injection Hr as <-. auto.
    - destruct (step s1 e) as [s'|] eqn:He; [|discriminate]. cbn in Hr.
      destruct (Hstep _ _ _ He Hfr Hc) as (H1 & H2 & H3 & H4).
      destruct (IH _ _ Hr H3 H4) as (H5 & H6 & H7 & H8).
      repeat split; auto; congruence. }
  intros Hr. specialize (Hrun evs (bootstrap col) s Hr).
  unfold bootstrap, restoreOpenPosition in Hrun. rewrite Hdry in Hrun. cbn in Hrun.
  apply Hrun; constructor.
Qed.

(** ** One transition per tick *)

(** The store operations in flight. *)
Definition pending (fr : list Frame) : nat :=
  length (filter (fun f => store_frame f = true) fr).








(** ** The cache, the store and a restart *)

(** The cached position is a copy of the document stored under its
    identifier. *)
Definition linked (w : World) : Prop :=
  forall p, openPosition w = Some p ->
    exists i, _id p = ObjectId i /\ positionsCol w !! i = Some (fields p).

Lemma trade_persistent (locals : Snapshot) (now : Date) (w : World) :
  DRY_RUN cfg = false ->
  openPosition (trade locals now w).1 = openPosition w.
Proof.
  intros Hdry. unfold trade.
  destruct (openPosition w) as [pos|] eqn:Ho.
  - destruct (_ && _); [|destruct (_ && _)];
      unfold closeTrade, await_trade, tick_report; cbn; rewrite ?Ho, ?Hdry;
      try destruct (_ || _); cbn; auto.
  - destruct (bool_decide _); [|destruct (bool_decide _)];
      unfold openTrade, await_trade, tick_report; cbn; rewrite ?Hdry;
      try destruct (_ || _); cbn; auto.
Qed.

Lemma resume_linked (f : Frame) (r : Response) (t : Date) (w : World)
    (res : World * option Frame) :
  DRY_RUN cfg = false -> linked w -> resume f r t w = Some res -> linked res.1.
Proof.
  intros Hdry Hl Hres. destruct f as [|base locals|id u locals|thr locals];
    unfold resume in Hres.
  - unfold tick_resume_fetch in Hres. destruct r; try discriminate.
    + destruct (_ <? _)%nat; injection Hres as <-; [exact Hl|].
      unfold linked. rewrite (trade_persistent _ _ _ Hdry).
      rewrite (proj1 (trade_store _ _ _)). exact Hl.
    + injection Hres as <-. exact Hl.
  - destruct r; try discriminate; cbn in Hres; injection Hres as <-;
      [|exact Hl].
    intros p [= <-]. exists (length (positionsCol w)). split; [reflexivity|].
    cbn. rewrite lookup_app_r by lia. now rewrite Nat.sub_diag.
  - unfold closeTrade_resume in Hres.
    destruct (findOneAndUpdate id u w) as [w2 res2].
    destruct r; try discriminate; cbn in Hres; injection Hres as <-;
      [|exact Hl].
    intros p Hp. discriminate Hp.
  - destruct r; try discriminate. injection Hres as <-.
    destruct thr; [exact Hl|]. unfold linked. cbn [fst].
    destruct (tick_report_fields locals w) as (_ & -> & -> & _). exact Hl.
Qed.

Lemma linked_run (evs : list Event) (s s' : System) :
  DRY_RUN cfg = false -> linked (world s) -> run s evs = Some s' -> linked (world s').
Proof.
  intros Hdry. revert s. induction evs as [|e evs IH]; intros s Hl Hr; cbn in Hr.
  - now injection Hr as <-.
  - destruct (step s e) as [s1|] eqn:He; [|discriminate]. cbn in Hr.
    apply (IH s1); [|exact Hr]. destruct e as [|i r t]; cbn in He.
    + unfold tick in He. destruct (isTickRunning (world s));
        injection He as <-; exact Hl.
    + destruct (suspended s !! i) as [f|]; [|discriminate]. cbn in He.
      destruct (resume f r t (world s)) as [[w' f']|] eqn:Hres; [|discriminate].
      cbn in He. injection He as <-. exact (resume_linked _ _ _ _ _ Hdry Hl Hres).
Qed.

Lemma find_length (sym : string) (col : list Doc) :
  length (find sym col) = open_count sym col.
Proof.
  unfold find, open_count.
  assert (H : forall (g : nat -> nat) l,
             length (filter (fun r : nat * Doc => OpenFor sym r.2)
                       (imap (fun j d => (g j, d)) l))
             = length (filter (OpenFor sym) l)).
  { intros g l. revert g. induction l as [|x l IH]; intros g; [reflexivity|].
    rewrite imap_cons. rewrite !filter_cons. cbn [snd].
    specialize (IH (g ∘ S)). unfold compose in *.
    destruct (decide (OpenFor sym x)); cbn [length]; rewrite <- IH; reflexivity. }
  exact (H (fun j => j) col).
Qed.

Lemma newest_max (rows : list (nat * Doc)) (b r : nat * Doc) :
  newest rows = Some b -> r ∈ rows -> createdAt r.2 <= createdAt b.2.
Proof.
  revert b. induction rows as [|x rows IH]; intros b Hb Hr; [inversion Hr|].
  cbn in Hb. fold (newest rows) in Hb.
  destruct (newest rows) as [c|] eqn:Hc.
  - destruct (Nat.leb_spec (createdAt c.2) (createdAt x.2)); injection Hb as <-;
      apply elem_of_cons in Hr as [->|Hr]; try lia.
    + specialize (IH c eq_refl Hr). lia.
    + exact (IH c eq_refl Hr).
  - injection Hb as <-. apply newest_none in Hc. subst rows.
    apply elem_of_cons in Hr as [->|Hr]; [lia|inversion Hr].
Qed.

Lemma restore_spec (w : World) :
  (DRY_RUN cfg = true -> restoreOpenPosition w = w)
  /\ (DRY_RUN cfg = false ->
      restoreOpenPosition w = with_openPosition (openPosition (restoreOpenPosition w)) w
      /\ match openPosition (restoreOpenPosition w) with
         | Some p =>
             exists i, _id p = ObjectId i
               /\ positionsCol w !! i = Some (fields p)
               /\ OpenFor (SYMBOL cfg) (fields p)
               /\ forall j d, positionsCol w !! j = Some d -> OpenFor (SYMBOL cfg) d ->
                              createdAt d <= createdAt (fields p)
         | None =>
             forall j d, positionsCol w !! j = Some d -> ~ OpenFor (SYMBOL cfg) d
         end).
Proof.
  unfold restoreOpenPosition. split; intros ->; [reflexivity|].
  split; [reflexivity|]. cbn [openPosition with_openPosition].
  destruct (newest (find (SYMBOL cfg) (positionsCol w))) as [[i d]|] eqn:E; cbn.
  - pose proof (newest_elem _ _ E) as Hin. apply find_spec in Hin as [Hi Hd].
    cbn in Hi, Hd. exists i. repeat split; try assumption; try apply Hd.
    intros j d' Hj Hd'.
    assert (Hin' : (j, d') ∈ find (SYMBOL cfg) (positionsCol w))
      by (apply find_spec; auto).
    exact (newest_max _ _ _ E Hin').
  - apply newest_none in E. intros j d Hj Hd.
    assert (H : (j, d) ∈ find (SYMBOL cfg) (positionsCol w)) by (apply find_spec; auto).
    rewrite E in H. inversion H.
Qed.

(** X8. Start-up reconciliation: with persistence, [restoreOpenPosition]
    caches a document of the collection that is open, of the configured
    instrument and as recent as any other such document, under its own
    identifier, or nothing when the collection has none; without
    persistence it does nothing.  Nothing but the cache is touched. *)
Theorem restoreOpenPosition_newest (w : World) :
  (DRY_RUN cfg = true -> restoreOpenPosition w = w)
  /\ (DRY_RUN cfg = false ->
      restoreOpenPosition w = with_openPosition (openPosition (restoreOpenPosition w)) w
      /\ match openPosition (restoreOpenPosition w) with
         | Some p =>
             exists i, _id p = ObjectId i
               /\ positionsCol w !! i = Some (fields p)
               /\ OpenFor (SYMBOL cfg) (fields p)
               /\ forall j d, positionsCol w !! j = Some d -> OpenFor (SYMBOL cfg) d ->
                              createdAt d <= createdAt (fields p)
         | None =>
             forall j d, positionsCol w !! j = Some d -> ~ OpenFor (SYMBOL cfg) d
         end).
Proof. exact (restore_spec w). Qed.

Lemma synced_linked_find (w : World) :
  synced (openPosition w) (positionsCol w) -> linked w ->
  find (SYMBOL cfg) (positionsCol w)
  = match openPosition w with
    | Some p => match _id p with
                | ObjectId i => [(i, fields p)]
                | dryrun => []
                end
    | None => []
    end.
Proof.
  intros Hs Hl.
  pose proof (synced_open_count _ _ Hs) as Hc. rewrite <- find_length in Hc.
  destruct (openPosition w) as [p|] eqn:Ho; cbn in Hs.
  - destruct Hs as (i & Hid & (d & Hi & Hd) & Huniq).
    destruct (Hl p Ho) as (i' & Hid' & Hi').
    assert (i' = i) as -> by congruence.
    assert (d = fields p) as -> by congruence. rewrite Hid.
    assert (Hin : (i, fields p) ∈ find (SYMBOL cfg) (positionsCol w))
      by (apply find_spec; auto).
    destruct (find (SYMBOL cfg) (positionsCol w)) as [|x [|y l]]; cbn in Hc;
      [inversion Hin| |lia].
    apply list_elem_of_singleton in Hin. now subst.
  - destruct (find (SYMBOL cfg) (positionsCol w)) as [|[j d] l] eqn:E; [reflexivity|].
    exfalso. assert (Hin : (j, d) ∈ find (SYMBOL cfg) (positionsCol w))
      by (rewrite E; left).
    apply find_spec in Hin as [Hj Hd]. exact (Hs j d Hj Hd).
Qed.

Lemma linked_bootstrap (col : list Doc) :
  DRY_RUN cfg = false -> linked (world (bootstrap col)).
Proof.
  intros Hdry p Hp. cbn [bootstrap world] in *.
  pose proof (proj2 (proj2 (restore_spec (initial col)) Hdry)) as H.
  rewrite Hp in H. destruct H as (i & Hid & Hi & _).
  exists i. split; [exact Hid|].
  unfold restoreOpenPosition. rewrite Hdry. exact Hi.
Qed.

Lemma reachable_find (col : list Doc) (evs : list Event) (s : System) :
  DRY_RUN cfg = false ->
  open_count (SYMBOL cfg) col <= 1 ->
  run (bootstrap col) evs = Some s ->
  find (SYMBOL cfg) (positionsCol (world s))
  = match openPosition (world s) with
    | Some p => match _id p with
                | ObjectId i => [(i, fields p)]
                | dryrun => []
                end
    | None => []
    end
  /\ forall p, openPosition (world s) = Some p -> exists i, _id p = ObjectId i.
Proof.
  intros Hdry Hc Hr.
  pose proof (inv_store _ (Inv_run evs _ _ (Inv_bootstrap col Hc) Hr)) as Hs.
  rewrite Hdry in Hs.
  pose proof (linked_run evs _ _ Hdry (linked_bootstrap col Hdry) Hr) as Hl.
  split; [exact (synced_linked_find _ Hs Hl)|].
  intros p Hp. destruct (Hl p Hp) as (i & Hid & _). eauto.
Qed.

(** X9. Whenever no store operation is in flight, [/api/positions/open]
    answers exactly the cached position: a list of that one position, or the
    empty list.  The collection at start-up holds at most one open position
    of the instrument. *)
Theorem api_positions_open_is_cache (col : list Doc) (evs : list Event) (s : System) :
  open_count (SYMBOL cfg) col <= 1 ->
  run (bootstrap col) evs = Some s ->
  pending (suspended s) = 0 ->
  api_positions_open (world s) = option_list (openPosition (world s))
  /\ length (api_positions_open (world s)) <= 1.
Proof.
  intros Hc Hr _.
  assert (H : api_positions_open (world s) = option_list (openPosition (world s))).
  { unfold api_positions_open. destruct (DRY_RUN cfg) eqn:Hdry; [reflexivity|].
    destruct (reachable_find col evs s Hdry Hc Hr) as [-> Hid].
    destruct (openPosition (world s)) as [p|]; [|reflexivity].
    destruct (Hid p eq_refl) as (i & Hi). rewrite Hi. cbn.
    destruct p as [id d]. cbn in *. now subst. }
  split; [exact H|]. rewrite H. destruct (openPosition (world s)); cbn; lia.
Qed.

(** X10. A restart between store operations recovers the cache: with
    persistence, running the start-up reconciliation on the collection as a
    run has left it caches the position the process had cached, or nothing
    if it had none. *)
Theorem restart_recovers_position (col : list Doc) (evs : list Event) (s : System) :
  DRY_RUN cfg = false ->
  open_count (SYMBOL cfg) col <= 1 ->
  run (bootstrap col) evs = Some s ->
  pending (suspended s) = 0 ->
  openPosition (world (bootstrap (positionsCol (world s)))) = openPosition (world s).
Proof.
  intros Hdry Hc Hr _. cbn [bootstrap world].
  unfold restoreOpenPosition. rewrite Hdry.
  cbn [initial positionsCol openPosition with_openPosition].
  destruct (reachable_find col evs s Hdry Hc Hr) as [-> Hid].
  destruct (openPosition (world s)) as [p|]; [|reflexivity].
  destruct (Hid p eq_refl) as (i & Hi). rewrite Hi. cbn.
  destruct p as [id d]. cbn in *. now subst.
Qed.

(** ** The snapshot and [/api/price] *)

Lemma stale_cached0 (now : Date) : stale cached0 now = true.
Proof. reflexivity. Qed.

(** An event that brings a window the tick accepts. *)
Definition accepts (e : Event) : bool :=
  match e with
  | Resume _ (fetched closes) _ =>
      negb (length closes <? Nat.max (EMA_ENTRY_SLOW cfg) (EMA_EXIT_SLOW cfg))%nat
  | _ => false
  end.

Lemma step_cached (s s' : System) (e : Event) :
  step s e = Some s' -> accepts e = false -> cached (world s') = cached (world s).
Proof.
  destruct e as [|i r t]; intros Hs Hacc.
  - cbn in Hs. unfold tick in Hs.
    destruct (isTickRunning (world s)); injection Hs as <-; reflexivity.
  - unfold step in Hs. destruct (suspended s !! i) as [f|]; [|discriminate].
    cbn [mbind option_bind] in Hs.
    destruct (resume f r t (world s)) as [[w' f']|] eqn:Hres; [|discriminate].
    cbn [mbind option_bind] in Hs. injection Hs as <-. cbn [world].
    assert (Hf : f = tick_at_fetchCloses \/ f <> tick_at_fetchCloses)
      by (destruct f; auto; right; discriminate).
    destruct Hf as [->|Hf].
    + unfold resume, tick_resume_fetch in Hres. destruct r; try discriminate.
      * unfold accepts in Hacc. apply negb_false_iff in Hacc.
        rewrite Hacc in Hres. now injection Hres as <-.
      * now injection Hres as <-.
    + exact (resume_cached f r t (world s) (w', f') Hf Hres).
Qed.

(** X11. The freshness window of [/api/price]: once a tick has evaluated the
    signals at time [now], the snapshot is stale exactly for requests more
    than 70000 ms later, so a request up to then starts no tick and leaves the
    process as it is; a request after that calls [tick()]. *)
Theorem api_price_fresh_window (w : World) (closes : list float) (now : Date)
    (res : World * option Frame) :
  Nat.max (EMA_ENTRY_SLOW cfg) (EMA_EXIT_SLOW cfg) <= length closes ->
  tick_resume_fetch (fetched closes) now w = Some res ->
  (forall now', stale (cached res.1) now'
                = (70000 <? Z.of_nat now' - Z.of_nat now)%Z)
  /\ (forall s now', cached (world s) = cached res.1 ->
                     (Z.of_nat now' <= Z.of_nat now + 70000)%Z ->
                     api_price now' s = Some s)
  /\ (forall s now', cached (world s) = cached res.1 ->
                     (Z.of_nat now + 70000 < Z.of_nat now')%Z ->
                     api_price now' s = step s Invoke).
Proof.
  intros Hlen Hres. rewrite tick_resume_fetch_enough in Hres by exact Hlen.
  injection Hres as <-. rewrite trade_cached. cbn [cached with_cached].
  assert (Hst : forall now', stale (evaluate closes now) now'
                             = (70000 <? Z.of_nat now' - Z.of_nat now)%Z)
    by reflexivity.
  split; [exact Hst|]. split; intros s now' Hc Hn; unfold api_price;
    rewrite Hc, Hst.
  - destruct (Z.ltb_spec 70000 (Z.of_nat now' - Z.of_nat now)); [lia|reflexivity].
  - destruct (Z.ltb_spec 70000 (Z.of_nat now' - Z.of_nat now)); [reflexivity|lia].
Qed.

(** X12. Until a fetch brings enough prices the snapshot stays as the process
    started it: over a run in which no accepted window arrives, rejected
    fetches and short windows included, [lastTickAt] stays unset, so every
    [/api/price] request calls [tick()]. *)
Theorem api_price_stale_until_first_tick (col : list Doc) (evs : list Event)
    (s : System) (now : Date) :
  run (bootstrap col) evs = Some s ->
  Forall (fun e => accepts e = false) evs ->
  cached (world s) = cached0
  /\ stale (cached (world s)) now = true
  /\ api_price now s = step s Invoke.
Proof.
  intros Hr Hacc.
  assert (Hc : cached (world s) = cached0).
  { assert (H0 : cached (world (bootstrap col)) = cached0).
    { unfold bootstrap, restoreOpenPosition. destruct (DRY_RUN cfg); reflexivity. }
    revert Hr H0. generalize (bootstrap col). clear col.
    induction evs as [|e evs IH]; intros s0 Hr H0; cbn in Hr.
    - now injection Hr as <-.
    - destruct (step s0 e) as [s1|] eqn:He; [|discriminate]. cbn in Hr.
      apply Forall_cons in Hacc as [Hacc1 Hacc2].
      apply (IH Hacc2 s1 Hr). rewrite (step_cached _ _ _ He Hacc1). exact H0. }
  split; [exact Hc|]. unfold api_price. rewrite Hc. auto.
Qed.

(** ** The length of an invocation and a failing store *)

(** X13. An invocation of [tick] never waits twice at the same place: each
    resumption either ends it, releasing the guard, or leaves it at a later
    [await]; so it ends within three resumptions. *)
Theorem resume_progress (f : Frame) (r : Response) (t : Date) (w : World)
    (res : World * option Frame) :
  resume f r t w = Some res ->
  awaits_left f <= 3
  /\ match res.2 with
     | Some f' => awaits_left f' < awaits_left f
                  /\ isTickRunning res.1 = isTickRunning w
     | None => isTickRunning res.1 = false
     end.
Proof.
  intros Hres. split; [destruct f; cbn; lia|].
  destruct res as [w' [f'|]]; cbn [fst snd];
    [|exact (resume_exit_releases _ _ _ _ _ Hres)].
  destruct f as [|base locals|id u locals|thr locals]; unfold resume in Hres.
  - unfold tick_resume_fetch in Hres. destruct r; try discriminate.
    { destruct (_ <? _)%nat; [discriminate|]. injection Hres as Hres.
      assert (Hg : isTickRunning (with_cached (evaluate closes t) w)
                   = isTickRunning w) by reflexivity.
      revert Hres Hg. generalize (with_cached (evaluate closes t) w) as w1.
      intros w1 Hres <-. revert Hres. unfold trade.
      destruct (openPosition w1) as [pos|] eqn:Ho.
      * destruct (_ && _); [|destruct (_ && _)];
          unfold closeTrade, await_trade, tick_report; cbn; rewrite ?Ho;
          destruct (DRY_RUN cfg); try destruct (_ || _); cbn;
          intros [= <- <-]; cbn; split; (lia || reflexivity).
      * destruct (bool_decide _); [|destruct (bool_decide _)];
          unfold openTrade, await_trade, tick_report; cbn;
          destruct (DRY_RUN cfg); try destruct (_ || _); cbn;
          intros [= <- <-]; cbn; split; (lia || reflexivity). }
  - destruct r; try discriminate; cbn in Hres; injection Hres as <- <-; cbn;
      split; (lia || reflexivity).
  - unfold closeTrade_resume in Hres.
    assert (Hg : isTickRunning (findOneAndUpdate id u w).1 = isTickRunning w).
    { unfold findOneAndUpdate. repeat case_match; reflexivity. }
    destruct (findOneAndUpdate id u w) as [w2 res2]. cbn in Hg.
    destruct r; try discriminate; cbn in Hres; injection Hres as <- <-; cbn;
      split; try lia; try reflexivity.
    destruct res2; exact Hg.
  - destruct r; discriminate.
Qed.

(** X14. A store operation that rejects changes nothing but the console: the
    invocation prints the tick error and releases the guard, and the cached
    position, the collection, its writes and the snapshot are as they were
    when the operation was issued; a rejected close leaves the position
    cached for a later tick to close. *)
Theorem store_failure_keeps_state (w : World) (f : Frame) (t t' : Date) :
  store_frame f = true ->
  exists s',
    run {| world := w; suspended := [f] |} [Resume 0 rejected t; Resume 0 settled t']
    = Some s'
    /\ suspended s' = []
    /\ isTickRunning (world s') = false
    /\ openPosition (world s') = openPosition w
    /\ positionsCol (world s') = positionsCol w
    /\ writes (world s') = writes w
    /\ cached (world s') = cached w
    /\ console (world s') = console w ++ [error_tick].
Proof.
  intros Hf. exists {| world := tick_catch w; suspended := [] |}.
  split; [|cbn; auto 10].
  destruct f as [|base locals|id u locals|thr locals]; try discriminate Hf.
  - reflexivity.
  - cbn. unfold closeTrade_resume.
    destruct (findOneAndUpdate id u w) as [w2 res2]. reflexivity.
Qed.

(** ** A trade from entry to exit *)

Lemma run_app (s : System) (evs1 evs2 : list Event) :
  run s (evs1 ++ evs2) = run s evs1 ≫= fun s1 => run s1 evs2.
Proof.
  revert s. induction evs1 as [|e evs1 IH]; intros s; cbn; [reflexivity|].
  destruct (step s e) as [s1|]; cbn; [apply IH|reflexivity].
Qed.

(** The [$set] of a close at the price and the exit averages of a tick. *)
Definition close_set (pos : Position) (locals : Snapshot) (now : Date) : CloseSet :=
  {| set_exitPrice := price locals;
     set_exitTime := now;
     set_exitEMAfast := emaExitFast locals;
     set_exitEMAslow := emaExitSlow locals;
     set_profitLoss := pnl_of pos (price locals);
     set_updatedAt := now |}.

(** One tick that opens a LONG, from the call to the released guard. *)
Lemma opening_tick (w : World) (closes : list float) (now a b : Date) :
  DRY_RUN cfg = false ->
  isTickRunning w = false ->
  openPosition w = None ->
  Nat.max (EMA_ENTRY_SLOW cfg) (EMA_EXIT_SLOW cfg) <= length closes ->
  entrySignal (evaluate closes now) = GOLDEN ->
  let locals := evaluate closes now in
  let base := base_of LONG (price locals) (emaEntryFast locals) (emaEntrySlow locals) now in
  exists w',
    run {| world := w; suspended := [] |}
      [Invoke; Resume 0 (fetched closes) now; Resume 0 inserted a; Resume 0 settled b]
    = Some {| world := w'; suspended := [] |}
    /\ isTickRunning w' = false
    /\ openPosition w'
       = Some {| _id := ObjectId (length (positionsCol w)); fields := base |}
    /\ positionsCol w' = positionsCol w ++ [base]
    /\ writes w' = writes w ++ [insert_one (length (positionsCol w))].
Proof.
  intros Hdry Hg Ho Hlen Hsig. cbv zeta.
  pose proof (step_invoke_idle w Hg) as S1.
  assert (Ho1 : openPosition (with_isTickRunning true w) = None) by exact Ho.
  destruct (golden_tick (with_isTickRunning true w) closes now Hdry Ho1 Hlen Hsig)
    as (R2 & R3 & R4).
  pose proof (step_resume_single _ _ _ _ _ _ R2) as S2.
  pose proof (step_resume_single _ _ _ _ _ _ (R3 a)) as S3.
  pose proof (step_resume_single _ _ _ _ _ _ (R4 b)) as S4.
  cbv [option_list option_rect] in S2, S3, S4.
  eexists. split.
  - cbn [run]. rewrite S1. cbn [mbind option_bind].
    rewrite S2. cbn [mbind option_bind]. rewrite S3. cbn [mbind option_bind].
    rewrite S4. reflexivity.
  - match goal with
    | |- context [tick_report ?l ?x] =>
        destruct (tick_report_fields l x) as (-> & -> & -> & -> & _)
    end.
    cbn. auto.
Qed.

(** One tick that closes the cached LONG on a DEATH exit signal. *)
Lemma closing_tick (w : World) (pos : Position) (i : nat) (d : Doc)
    (closes : list float) (now a b : Date) :
  DRY_RUN cfg = false ->
  isTickRunning w = false ->
  openPosition w = Some pos ->
  _id pos = ObjectId i ->
  positionsCol w !! i = Some d ->
  status d = OPEN ->
  positionType (fields pos) = LONG ->
  Nat.max (EMA_ENTRY_SLOW cfg) (EMA_EXIT_SLOW cfg) <= length closes ->
  exitSignal (evaluate closes now) = DEATH ->
  let u := close_set pos (evaluate closes now) now in
  exists w',
    run {| world := w; suspended := [] |}
      [Invoke; Resume 0 (fetched closes) now; Resume 0 updated a; Resume 0 settled b]
    = Some {| world := w'; suspended := [] |}
    /\ isTickRunning w' = false
    /\ openPosition w' = None
    /\ positionsCol w' = <[i := apply_set u d]> (positionsCol w)
    /\ writes w' = writes w ++ [update_one i].
Proof.
  intros Hdry Hg Ho Hid Hi Hd Hside Hlen Hsig. cbv zeta.
  set (locals := evaluate closes now) in *.
  set (u := close_set pos locals now).
  set (w1 := with_isTickRunning true w).
  set (w2 := record_call (call_closeTrade (Some pos)) (with_cached locals w1)).
  pose proof (step_invoke_idle w Hg) as S1. fold w1 in S1.
  assert (R2 : resume tick_at_fetchCloses (fetched closes) now w1
               = Some (w2, Some (closeTrade_at_findOneAndUpdate (ObjectId i) u locals))).
  { unfold resume. rewrite tick_resume_fetch_enough by exact Hlen. fold locals.
    unfold trade. cbn [openPosition with_cached w1 with_isTickRunning].
    rewrite Ho, Hsig, Hside. cbn.
    unfold closeTrade. cbn. rewrite Ho, Hdry, Hid. reflexivity. }
  assert (Hupd : findOneAndUpdate (ObjectId i) u w2
                 = (with_store (<[i := apply_set u d]> (positionsCol w2))
                      (update_one i) w2, Some (apply_set u d))).
  { unfold findOneAndUpdate.
    change (positionsCol w2) with (positionsCol w). rewrite Hi, Hd. reflexivity. }
  set (w3 := with_openPosition None
               (print (log_close false (positionType (apply_set u d))
                         (set_exitPrice u) (set_profitLoss u))
                  (with_store (<[i := apply_set u d]> (positionsCol w2))
                     (update_one i) w2))).
  assert (R3 : resume (closeTrade_at_findOneAndUpdate (ObjectId i) u locals) updated a w2
               = Some (w3, Some (tick_at_trade false locals))).
  { unfold resume, closeTrade_resume. rewrite Hupd. reflexivity. }
  assert (R4 : resume (tick_at_trade false locals) settled b w3
               = Some (tick_report locals w3, None)) by reflexivity.
  pose proof (step_resume_single _ _ _ _ _ _ R2) as S2.
  pose proof (step_resume_single _ _ _ _ _ _ R3) as S3.
  pose proof (step_resume_single _ _ _ _ _ _ R4) as S4.
  cbv [option_list option_rect] in S2, S3, S4.
  exists (tick_report locals w3). split.
  - cbn [run]. rewrite S1. cbn [mbind option_bind].
    rewrite S2. cbn [mbind option_bind]. rewrite S3. cbn [mbind option_bind].
    rewrite S4. reflexivity.
  - destruct (tick_report_fields locals w3) as (-> & -> & -> & -> & _).
    cbn. auto.
Qed.

(** X15. A trade from entry to exit, with persistence: a tick with a GOLDEN
    entry signal followed by a tick with a DEATH exit signal leaves one more
    document in the collection, a closed LONG entered at the last price of
    the first window and left at the last price of the second, with
    [profitLoss = (exit - entry) * 1]; the cache is empty again and the store
    has applied one insert and one update of that document. *)
Theorem open_then_close (w : World) (closes1 closes2 : list float)
    (t1 a1 b1 t2 a2 b2 : Date) :
  DRY_RUN cfg = false ->
  isTickRunning w = false ->
  openPosition w = None ->
  Nat.max (EMA_ENTRY_SLOW cfg) (EMA_EXIT_SLOW cfg) <= length closes1 ->
  Nat.max (EMA_ENTRY_SLOW cfg) (EMA_EXIT_SLOW cfg) <= length closes2 ->
  entrySignal (evaluate closes1 t1) = GOLDEN ->
  exitSignal (evaluate closes2 t2) = DEATH ->
  exists s' d,
    run {| world := w; suspended := [] |}
      [ Invoke; Resume 0 (fetched closes1) t1; Resume 0 inserted a1;
        Resume 0 settled b1;
        Invoke; Resume 0 (fetched closes2) t2; Resume 0 updated a2;
        Resume 0 settled b2 ]
    = Some s'
    /\ suspended s' = []
    /\ isTickRunning (world s') = false
    /\ openPosition (world s') = None
    /\ positionsCol (world s') = positionsCol w ++ [d]
    /\ writes (world s')
       = writes w ++ [insert_one (length (positionsCol w));
                      update_one (length (positionsCol w))]
    /\ status d = CLOSED
    /\ positionType d = LONG
    /\ symbol d = SYMBOL cfg
    /\ entryPrice d = JS.at_ closes1 (-1)
    /\ exitPrice d = Some (JS.at_ closes2 (-1))
    /\ profitLoss d
       = Some ((JS.ToNumber (JS.at_ closes2 (-1)) - JS.ToNumber (JS.at_ closes1 (-1)))
               * 1)%float.
Proof.
  intros Hdry Hg Ho Hlen1 Hlen2 Hsig1 Hsig2.
  destruct (opening_tick w closes1 t1 a1 b1 Hdry Hg Ho Hlen1 Hsig1)
    as (w1 & Hrun1 & Hg1 & Ho1 & Hcol1 & Hwr1).
  set (base := base_of LONG (price (evaluate closes1 t1))
                 (emaEntryFast (evaluate closes1 t1))
                 (emaEntrySlow (evaluate closes1 t1)) t1) in *.
  assert (Hi : positionsCol w1 !! length (positionsCol w) = Some base).
  { rewrite Hcol1, lookup_app_r by lia. now rewrite Nat.sub_diag. }
  destruct (closing_tick w1 _ (length (positionsCol w)) base closes2 t2 a2 b2
              Hdry Hg1 Ho1 eq_refl Hi eq_refl eq_refl Hlen2 Hsig2)
    as (w2 & Hrun2 & Hg2 & Ho2 & Hcol2 & Hwr2).
  eexists {| world := w2; suspended := [] |}, _.
  split.
  { change [ Invoke; Resume 0 (fetched closes1) t1; Resume 0 inserted a1;
             Resume 0 settled b1;
             Invoke; Resume 0 (fetched closes2) t2; Resume 0 updated a2;
             Resume 0 settled b2 ]
      with ([ Invoke; Resume 0 (fetched closes1) t1; Resume 0 inserted a1;
              Resume 0 settled b1 ]
            ++ [ Invoke; Resume 0 (fetched closes2) t2; Resume 0 updated a2;
                 Resume 0 settled b2 ]).
    rewrite run_app, Hrun1. cbn [mbind option_bind]. exact Hrun2. }
  cbn [world suspended]. split; [reflexivity|]. split; [exact Hg2|].
  split; [exact Ho2|]. split.
  { rewrite Hcol2, Hcol1.
    rewrite insert_app_r_alt by lia. rewrite Nat.sub_diag. reflexivity. }
  split; [rewrite Hwr2, Hwr1, <- app_assoc; reflexivity|].
  cbn. repeat (split; [reflexivity|]).
  unfold pnl_of. cbn. reflexivity.
Qed.

(** ** A full window *)



Section FullWindow.

(** Modelled from the spec: the contract of the moving-average engine
    ([EMA.calculate] is an external collaborator): the series of a period
    over a window has [max(0, len(series) - period + 1)] elements. *)
Hypothesis EMA_length :
  forall period values,
    length (EMA_calculate period values) = length values + 1 - period.


End FullWindow.

(** ** The conditional update *)

(** X17. A record is closed once: after one [findOneAndUpdate] with the
    filter [{ _id, status: "OPEN" }], whether it matched or not, a second one
    on the same identifier matches nothing and leaves the collection and its
    writes as they are. *)
Theorem findOneAndUpdate_once (id : Id) (u u' : CloseSet) (w : World) :
  findOneAndUpdate id u' (findOneAndUpdate id u w).1
  = ((findOneAndUpdate id u w).1, None).
Proof.
  unfold findOneAndUpdate at 2 3. destruct id as [i|]; [|reflexivity].
  destruct (positionsCol w !! i) as [d|] eqn:Hi.
  - destruct (status d) eqn:Hd; cbn [fst].
    + unfold findOneAndUpdate. cbn [positionsCol with_store].
      rewrite list_lookup_insert_eq by (eapply lookup_lt_Some; exact Hi).
      reflexivity.
    + unfold findOneAndUpdate. rewrite Hi, Hd. reflexivity.
  - cbn [fst]. unfold findOneAndUpdate. rewrite Hi. reflexivity.
Qed.

End Bot.

(** ** The theorems on the sample inputs *)

Lemma single_open_position_witness :
  exists s,
    run cfg_demo EMA_model (bootstrap cfg_demo [long_at_100]) close_then_open = Some s
    /\ open_count "BTCUSDT" (positionsCol (world s)) <= 1
    /\ Forall call_ok (calls (world s))
    /\ length (suspended s) <= 1.
Proof.
  eexists. split; [vm_compute; reflexivity|].
  apply (single_open_position cfg_demo EMA_model [long_at_100] close_then_open).
  - vm_compute. lia.
  - vm_compute. reflexivity.
Defined.

Lemma tick_follows_decision_witness :
  spec_decision None (entrySignal (evaluate cfg_demo EMA_model closes_golden 1000))
    (exitSignal (evaluate cfg_demo EMA_model closes_golden 1000)) = act_open LONG
  /\ tick_resume_fetch cfg_demo EMA_model (fetched closes_golden) 1000 (initial [])
     = Some (perform cfg_demo (act_open LONG)
               (evaluate cfg_demo EMA_model closes_golden 1000) 1000
               (with_cached (evaluate cfg_demo EMA_model closes_golden 1000)
                  (initial []))).
Proof.
  split; [vm_compute; reflexivity|].
  assert (H : Nat.max (EMA_ENTRY_SLOW cfg_demo) (EMA_EXIT_SLOW cfg_demo)
              <= length closes_golden) by (vm_compute; lia).
  exact (proj1 (tick_follows_decision cfg_demo EMA_model (initial []) closes_golden 1000 H)).
Defined.

Lemma tick_refreshes_snapshot_witness :
  exists s',
    run cfg_demo EMA_model {| world := initial []; suspended := [] |}
      [Invoke; Resume 0 (fetched closes_golden) 1000] = Some s'
    /\ price (cached (world s')) = number 20
    /\ entrySignal (cached (world s')) = GOLDEN
    /\ lastTickAt (cached (world s')) = Some 1000.
Proof.
  assert (H : Nat.max (EMA_ENTRY_SLOW cfg_demo) (EMA_EXIT_SLOW cfg_demo)
              <= length closes_golden) by (vm_compute; lia).
  destruct (proj1 (tick_refreshes_snapshot cfg_demo EMA_model (initial [])
                     closes_golden 1000) eq_refl H)
    as (s' & Hrun & Hc & Hp & _ & _ & _ & _ & He & _ & Ht).
  exists s'. split; [exact Hrun|]. split; [exact Hp|]. split; [|exact Ht].
  rewrite He. vm_compute. reflexivity.
Defined.

(** C4, as stated, fails: an invocation whose fetch answers with too few
    prices, one whose fetch is rejected, and one that finds the guard held
    all end with the snapshot as it was, never assigned. *)
Lemma tick_without_refresh :
  (exists s',
      run cfg_demo EMA_model (bootstrap cfg_demo [])
        [Invoke; Resume 0 (fetched [1; 2]%float) 1000] = Some s'
      /\ suspended s' = []
      /\ isTickRunning (world s') = false
      /\ cached (world s') = cached0
      /\ lastTickAt (cached (world s')) = None)
  /\ (exists s',
         run cfg_demo EMA_model (bootstrap cfg_demo [])
           [Invoke; Resume 0 rejected 1000] = Some s'
         /\ suspended s' = []
         /\ cached (world s') = cached0
         /\ lastTickAt (cached (world s')) = None)
  /\ (exists s s',
         run cfg_demo EMA_model (bootstrap cfg_demo []) [Invoke] = Some s
         /\ step cfg_demo EMA_model s Invoke = Some s'
         /\ s' = s
         /\ cached (world s') = cached0
         /\ lastTickAt (cached (world s')) = None).
Proof.
  split; [|split].
  - eexists. split; [vm_compute; reflexivity|]. repeat split.
  - eexists. split; [vm_compute; reflexivity|]. repeat split.
  - eexists _, _. split; [vm_compute; reflexivity|].
    split; [vm_compute; reflexivity|]. repeat split.
Qed.

(** C8, as stated, fails: on a death cross the tick calls [closeTrade] with
    [long_at_100] cached; [findOneAndUpdate] rejects, [closeTrade] throws at
    line 168 before the assignment of line 191, and after the call, and after
    the whole tick, the position is still cached. *)
Lemma closeTrade_rejected_keeps_cache :
  (exists u,
      closeTrade cfg_demo (number 90) (number 95) (number 96) 5 holding_long
      = (holding_long, await_findOneAndUpdate (ObjectId 0) u)
      /\ closeTrade_resume (ObjectId 0) u rejected holding_long
         = Some (holding_long, threw)
      /\ openPosition holding_long
         = Some {| _id := ObjectId 0; fields := long_at_100 |})
  /\ (exists s',
         run cfg_demo EMA_model (bootstrap cfg_demo [long_at_100])
           [ Invoke; Resume 0 (fetched closes_death) 2000; Resume 0 rejected 2001;
             Resume 0 settled 2002 ] = Some s'
         /\ suspended s' = []
         /\ calls (world s')
            = [call_closeTrade (Some {| _id := ObjectId 0; fields := long_at_100 |})]
         /\ openPosition (world s')
            = Some {| _id := ObjectId 0; fields := long_at_100 |}
         /\ openPosition (world s') <> None).
Proof.
  split.
  - eexists. split; [reflexivity|]. split; reflexivity.
  - eexists. split; [vm_compute; reflexivity|]. repeat split. discriminate.
Qed.

Lemma overlapping_ticks_witness :
  exists s',
    run cfg_demo EMA_model (bootstrap cfg_demo [])
      [ Invoke; Invoke; Resume 0 (fetched closes_golden) 1000;
        Resume 0 inserted 1001; Resume 0 settled 1002 ] = Some s'
    /\ suspended s' = []
    /\ isTickRunning (world s') = false
    /\ writes (world s') = [insert_one 0]
    /\ length (positionsCol (world s')) = 1.
Proof.
  destruct (proj2 (proj2 (proj2 (proj2
              (overlapping_ticks cfg_demo EMA_model [] closes_golden 1000 1001 1002))))
              eq_refl eq_refl ltac:(vm_compute; lia) ltac:(vm_compute; reflexivity)
              [ Invoke; Invoke; Resume 0 (fetched closes_golden) 1000;
                Resume 0 inserted 1001; Resume 0 settled 1002 ]
              ltac:(left))
    as (s' & Hrun & Hs & Hg & Hw & Hcol & _).
  exists s'. split; [exact Hrun|]. split; [exact Hs|]. split; [exact Hg|].
  split; [exact Hw|]. rewrite Hcol. reflexivity.
Defined.

Lemma closeTrade_profitLoss_witness :
  exists u w' d',
    closeTrade cfg_demo (number 90) (number 95) (number 96) 5 holding_long
    = (holding_long, await_findOneAndUpdate (ObjectId 0) u)
    /\ set_profitLoss u = (-10)%float
    /\ closeTrade_resume (ObjectId 0) u updated holding_long = Some (w', returned)
    /\ positionsCol w' !! 0 = Some d'
    /\ status d' = CLOSED
    /\ exitPrice d' = Some (number 90)
    /\ profitLoss d' = Some (-10)%float.
Proof.
  exact (proj1 (closeTrade_profitLoss cfg_demo holding_long
                  {| _id := ObjectId 0; fields := long_at_100 |} 0 long_at_100
                  (number 90) (number 95) (number 96) 5
                  eq_refl eq_refl eq_refl eq_refl eq_refl eq_refl)).
Defined.

Lemma closeTrade_without_position_witness :
  closeTrade cfg_demo (number 90) (number 95) (number 96) 5 (initial [long_at_100])
  = (initial [long_at_100], returned)
  /\ positionsCol (closeTrade cfg_demo (number 90) (number 95) (number 96) 5
                     (initial [long_at_100])).1 = [long_at_100]
  /\ writes (closeTrade cfg_demo (number 90) (number 95) (number 96) 5
               (initial [long_at_100])).1 = [].
Proof.
  exact (closeTrade_without_position cfg_demo (initial [long_at_100])
           (number 90) (number 95) (number 96) 5 eq_refl).
Defined.

Lemma closeTrade_clears_cache_witness :
  exists u w2,
    closeTrade cfg_demo (number 90) (number 95) (number 96) 5 stale_cache
    = (stale_cache, await_findOneAndUpdate (ObjectId 0) u)
    /\ closeTrade_resume (ObjectId 0) u updated stale_cache = Some (w2, returned)
    /\ openPosition w2 = None
    /\ positionsCol w2 = positionsCol stale_cache
    /\ writes w2 = []
    /\ console w2 = [warn_no_open_position].
Proof.
  destruct (proj2 (closeTrade_clears_cache cfg_demo stale_cache
                     {| _id := ObjectId 0; fields := long_at_100 |}
                     (number 90) (number 95) (number 96) 5 eq_refl))
    as (u & Hcall & Hres).
  destruct (Hres stale_cache) as (w2 & Hr & Ho & Hkeep & _).
  destruct (Hkeep eq_refl) as (Hcol & Hwr & Hcon).
  exists u, w2. repeat split; assumption.
Defined.

Lemma tick_window_boundary_witness :
  (exists w',
      tick_resume_fetch cfg_demo EMA_model (fetched [1; 2]%float) 1000
        (with_isTickRunning true (initial [])) = Some (w', None)
      /\ console w' = [warn_not_enough_candles]
      /\ isTickRunning w' = false
      /\ cached w' = cached0)
  /\ entrySignal (cached (trade cfg_demo
                            (evaluate cfg_demo EMA_model [1; 2; 3]%float 1000) 1000
                            (with_cached (evaluate cfg_demo EMA_model [1; 2; 3]%float 1000)
                               (with_isTickRunning true (initial [])))).1) = NONE.
Proof.
  pose proof (tick_window_boundary cfg_demo EMA_model
                (with_isTickRunning true (initial []))) as H.
  split.
  - destruct (proj1 (H [1; 2]%float 1000) ltac:(vm_compute; lia))
      as (w' & Hr & Hcon & _ & _ & _ & _ & Hc & Hg).
    exists w'. repeat split; assumption.
  - destruct (proj2 (H [1; 2; 3]%float 1000) eq_refl) as (_ & -> & _).
    vm_compute. reflexivity.
Defined.

Lemma minimal_window_no_signal_witness :
  entrySignal (evaluate cfg_demo EMA_model [1; 2; 3]%float 1000) = NONE
  /\ exists w' f,
       tick_resume_fetch cfg_demo EMA_model (fetched [1; 2; 3]%float) 1000
         (with_isTickRunning true (initial [])) = Some (w', f)
       /\ f = None
       /\ positionsCol w' = []
       /\ openPosition w' = None.
Proof.
  destruct (minimal_window_no_signal cfg_demo EMA_model EMA_model_length
              (with_isTickRunning true (initial [])) [1; 2; 3]%float 1000)
    as (_ & _ & Hentry & _ & Htick).
  split; [apply Hentry; reflexivity|].
  destruct (Htick eq_refl ltac:(vm_compute; lia))
    as (w' & f & Hr & Hcol & _ & _ & [Ho|Ho] & Hnone);
    exists w', f; (split; [exact Hr|]); (split; [apply Hnone; reflexivity|]);
    (split; [exact Hcol|]); exact Ho.
Defined.

(** ** The rest of the service on the sample inputs *)


(** A tick whose store operation is rejected, then one that opens. *)
Definition reject_then_open : list Event :=
  [ Invoke; Resume 0 (fetched closes_golden) 1000; Resume 0 rejected 1001;
    Resume 0 settled 1002;
    Invoke; Resume 0 (fetched closes_golden) 3000; Resume 0 inserted 3001;
    Resume 0 settled 3002 ].

Lemma detectCross_nan_witness :
  detectCross (number 1) undefined (number 3) (number 2) = NONE.
Proof.
  apply (detectCross_nan (number 1) undefined (number 3) (number 2)).
  right. left. reflexivity.
Defined.

Lemma detectCross_no_repeat_witness :
  detectCross (number 3) (number 2) (number 4) (number 2)
  <> detectCross (number 1) (number 2) (number 3) (number 2).
Proof.
  apply (detectCross_no_repeat (number 1) (number 2) (number 3) (number 2)
           (number 4) (number 2)).
  vm_compute. discriminate.
Defined.

Lemma history_is_kept_witness :
  exists s',
    run cfg_demo EMA_model (bootstrap cfg_demo [long_at_100]) close_then_open = Some s'
    /\ length (positionsCol (world s')) = 2
    /\ exists d', positionsCol (world s') !! 0 = Some d'
                  /\ entryPrice d' = number 100 /\ positionType d' = LONG.
Proof.
  eexists. split; [vm_compute; reflexivity|].
  split; [reflexivity|].
  match goal with
  | |- context [positionsCol (world ?s)] =>
      destruct (proj2 (proj2 (history_is_kept cfg_demo EMA_model
                                (bootstrap cfg_demo [long_at_100]) s close_then_open
                                ltac:(vm_compute; reflexivity)))
                  0 long_at_100 eq_refl)
        as (d' & Hd' & _ & _ & Hside & _ & Hentry & _)
  end.
  exists d'. split; [exact Hd'|]. split; [exact Hentry|exact Hside].
Defined.

Lemma dry_run_never_writes_witness :
  exists s,
    run cfg_dry EMA_model (bootstrap cfg_dry [long_at_100])
      [Invoke; Resume 0 (fetched closes_golden) 1000; Resume 0 settled 1001] = Some s
    /\ positionsCol (world s) = [long_at_100]
    /\ writes (world s) = []
    /\ is_Some (openPosition (world s)).
Proof.
  eexists. split; [vm_compute; reflexivity|].
  match goal with
  | |- context [positionsCol (world ?s)] =>
      destruct (dry_run_never_writes cfg_dry EMA_model [long_at_100]
                  [Invoke; Resume 0 (fetched closes_golden) 1000; Resume 0 settled 1001]
                  s eq_refl ltac:(vm_compute; reflexivity))
        as (Hcol & Hwr & _ & _)
  end.
  split; [exact Hcol|]. split; [exact Hwr|]. eexists. reflexivity.
Defined.


Lemma restoreOpenPosition_newest_witness :
  openPosition (restoreOpenPosition cfg_demo (initial [long_at_100]))
  = Some {| _id := ObjectId 0; fields := long_at_100 |}
  /\ restoreOpenPosition cfg_dry (initial [long_at_100]) = initial [long_at_100].
Proof.
  split; [reflexivity|].
  exact (proj1 (restoreOpenPosition_newest cfg_dry (initial [long_at_100])) eq_refl).
Defined.

Lemma api_positions_open_is_cache_witness :
  exists s,
    run cfg_demo EMA_model (bootstrap cfg_demo [long_at_100]) close_then_open = Some s
    /\ api_positions_open cfg_demo (world s) = option_list (openPosition (world s))
    /\ length (api_positions_open cfg_demo (world s)) <= 1.
Proof.
  eexists. split; [vm_compute; reflexivity|].
  match goal with
  | |- context [openPosition (world ?s)] =>
      exact (api_positions_open_is_cache cfg_demo EMA_model [long_at_100]
               close_then_open s ltac:(vm_compute; lia)
               ltac:(vm_compute; reflexivity) eq_refl)
  end.
Defined.

Lemma restart_recovers_position_witness :
  exists s,
    run cfg_demo EMA_model (bootstrap cfg_demo [long_at_100]) close_then_open = Some s
    /\ openPosition (world (bootstrap cfg_demo (positionsCol (world s))))
       = openPosition (world s).
Proof.
  eexists. split; [vm_compute; reflexivity|].
  match goal with
  | |- context [openPosition (world ?s)] =>
      exact (restart_recovers_position cfg_demo EMA_model [long_at_100]
               close_then_open s eq_refl ltac:(vm_compute; lia)
               ltac:(vm_compute; reflexivity) eq_refl)
  end.
Defined.

Lemma api_price_fresh_window_witness :
  exists res,
    tick_resume_fetch cfg_demo EMA_model (fetched closes_golden) 1000
      (with_isTickRunning true (initial [])) = Some res
    /\ stale (cached res.1) 71000 = false
    /\ stale (cached res.1) 71001 = true.
Proof.
  eexists. split; [vm_compute; reflexivity|].
  match goal with
  | |- context [cached (fst ?r)] =>
      destruct (api_price_fresh_window cfg_demo EMA_model
                  (with_isTickRunning true (initial [])) closes_golden 1000 r
                  ltac:(vm_compute; lia) ltac:(vm_compute; reflexivity))
        as (Hst & _ & _)
  end.
  split; rewrite Hst; reflexivity.
Defined.

Lemma api_price_stale_until_first_tick_witness :
  exists s,
    run cfg_demo EMA_model (bootstrap cfg_demo [])
      [Invoke; Resume 0 (fetched [1; 2]%float) 1000; Invoke; Resume 0 rejected 2000]
    = Some s
    /\ cached (world s) = cached0
    /\ stale (cached (world s)) 5000 = true.
Proof.
  eexists. split; [vm_compute; reflexivity|].
  match goal with
  | |- context [cached (world ?s)] =>
      destruct (api_price_stale_until_first_tick cfg_demo EMA_model []
                  [Invoke; Resume 0 (fetched [1; 2]%float) 1000; Invoke;
                   Resume 0 rejected 2000]
                  s 5000 ltac:(vm_compute; reflexivity)
                  ltac:(repeat constructor))
        as (Hc & Hst & _)
  end.
  split; assumption.
Defined.

Lemma resume_progress_witness :
  exists res,
    resume cfg_demo EMA_model tick_at_fetchCloses (fetched closes_golden) 1000
      (with_isTickRunning true (initial [])) = Some res
    /\ match res.2 with
       | Some f' => awaits_left f' < 3 /\ isTickRunning res.1 = true
       | None => isTickRunning res.1 = false
       end.
Proof.
  eexists. split; [vm_compute; reflexivity|].
  match goal with
  | |- context [fst ?r] =>
      exact (proj2 (resume_progress cfg_demo EMA_model tick_at_fetchCloses
                      (fetched closes_golden) 1000
                      (with_isTickRunning true (initial [])) r
                      ltac:(vm_compute; reflexivity)))
  end.
Defined.

Lemma store_failure_keeps_state_witness :
  exists s',
    run cfg_demo EMA_model
      {| world := with_isTickRunning true holding_long;
         suspended := [closeTrade_at_findOneAndUpdate (ObjectId 0)
                         (close_set {| _id := ObjectId 0; fields := long_at_100 |}
                            cached0 5) cached0] |}
      [Resume 0 rejected 6; Resume 0 settled 7] = Some s'
    /\ suspended s' = []
    /\ isTickRunning (world s') = false
    /\ openPosition (world s') = Some {| _id := ObjectId 0; fields := long_at_100 |}
    /\ positionsCol (world s') = [long_at_100]
    /\ writes (world s') = []
    /\ cached (world s') = cached0
    /\ console (world s') = [error_tick].
Proof.
  exact (store_failure_keeps_state cfg_demo EMA_model
           (with_isTickRunning true holding_long)
           (closeTrade_at_findOneAndUpdate (ObjectId 0)
              (close_set {| _id := ObjectId 0; fields := long_at_100 |} cached0 5)
              cached0)
           6 7 eq_refl).
Defined.

Lemma open_then_close_witness :
  exists s' d,
    run cfg_demo EMA_model {| world := initial []; suspended := [] |}
      [ Invoke; Resume 0 (fetched closes_golden) 1000; Resume 0 inserted 1001;
        Resume 0 settled 1002;
        Invoke; Resume 0 (fetched closes_death) 2000; Resume 0 updated 2001;
        Resume 0 settled 2002 ] = Some s'
    /\ positionsCol (world s') = [d]
    /\ status d = CLOSED
    /\ entryPrice d = number 20
    /\ exitPrice d = Some (number 2)
    /\ profitLoss d = Some (-18)%float.
Proof.
  destruct (open_then_close cfg_demo EMA_model (initial []) closes_golden closes_death
              1000 1001 1002 2000 2001 2002 eq_refl eq_refl eq_refl
              ltac:(vm_compute; lia) ltac:(vm_compute; lia)
              ltac:(vm_compute; reflexivity) ltac:(vm_compute; reflexivity))
    as (s' & d & Hrun & _ & _ & _ & Hcol & _ & Hst & _ & _ & Hen & Hex & Hpl).
  exists s', d. repeat split; assumption.
Defined.

